(** * cppbackend, sprint 1: the HTTP request handler and the asynchronous
      session / listener state machine

    The development embeds two programs of the repository:

    - [sync_server/solution/src/main.cpp]: [MakeStringResponse] and
      [HandleRequest], pure functions from a decoded request to a response;
    - [async_server/solution/src/http_server.{h,cpp}]: [SessionBase]
      ([Run], [Read], [OnRead], [Write], [OnWrite], [Close]), [Session] and
      [Listener] ([DoAccept], [OnAccept], [AsyncRunSession]), written in
      continuation-passing style over Boost.Asio.

    Both sit on Boost.Beast's [http::message].  The part of that library the
    code calls (field container, token lists of [Connection] and
    [Transfer-Encoding], [keep_alive], [content_length], [need_eof], error
    codes) is modelled in [Module beast], following the library's documented
    behaviour. *)

From Stdlib Require Import String Ascii List Bool Arith ZArith DecimalString.
Import ListNotations.

Local Open Scope list_scope.
Local Open Scope string_scope.
Local Open Scope nat_scope.

(* ================================================================== *)
(** * Boost.Beast: the library surface used by the servers            *)
(* ================================================================== *)

Module beast.

(** ** [boost::system::error_code]: an integer value in a category. *)

Inductive error_category : Type :=
| system_category      (* operating-system errno values, boost::asio *)
| beast_category       (* beast::error                               *)
| http_category.       (* beast::http::error                         *)

Record error_code : Type := mk_error_code {
  value    : Z;
  category : error_category
}.

Definition category_eqb (a b : error_category) : bool :=
  match a, b with
  | system_category, system_category => true
  | beast_category, beast_category => true
  | http_category, http_category => true
  | _, _ => false
  end.

(** [operator==] on error codes. *)
Definition error_code_eqb (a b : error_code) : bool :=
  Z.eqb (value a) (value b) && category_eqb (category a) (category b).

(** [explicit operator bool]: the code denotes a failure. *)
Definition failed (ec : error_code) : bool := negb (Z.eqb (value ec) 0).

(** A default-constructed [error_code]. *)
Definition success : error_code := mk_error_code 0 system_category.

(** [beast::error::timeout], delivered when a [tcp_stream] deadline set by
    [expires_after] passes before the operation completes. *)
Definition timeout : error_code := mk_error_code 1 beast_category.

(** [boost::asio::error::connection_aborted] and [broken_pipe], with their
    [errno] values: a connection that went away before [accept] returned it,
    and a write on a connection the peer has closed. *)
Definition connection_aborted : error_code :=
  mk_error_code 103 system_category.
Definition broken_pipe : error_code := mk_error_code 32 system_category.

(** ** Case-insensitive comparison ([beast::iequals]). *)

Definition to_lower (c : ascii) : ascii :=
  let n := nat_of_ascii c in
  if (65 <=? n) && (n <=? 90) then ascii_of_nat (n + 32) else c.

Fixpoint iequals (a b : string) : bool :=
  match a, b with
  | EmptyString, EmptyString => true
  | String x a', String y b' =>
      Ascii.eqb (to_lower x) (to_lower y) && iequals a' b'
  | _, _ => false
  end.

(** ** Token lists ([beast::http::token_list], RFC 7230 [#token]). *)

(** [detail::is_token_char]: the [tchar] set. *)
Definition is_token_char (c : ascii) : bool :=
  let n := nat_of_ascii c in
  ((48 <=? n) && (n <=? 57))        (* DIGIT *)
  || ((65 <=? n) && (n <=? 90))     (* ALPHA *)
  || ((97 <=? n) && (n <=? 122))
  || existsb (Ascii.eqb c)
       ["!"; "#"; "$"; "%"; "&"; "'"; "*"; "+"; "-"; "."; "^"; "_"; "`"; "|";
        "~"]%char.

(** Optional white space, as skipped by [detail::skip_ows]. *)
Definition is_ows (c : ascii) : bool :=
  Ascii.eqb c " "%char || Ascii.eqb c (ascii_of_nat 9).

(** The tokens an iteration from [begin()] to [end()] yields.  [cur] is the
    token being read (empty outside a token) and [need_comma] the flag of
    [const_iterator::increment]: set once a token has been read, cleared
    by a comma.  A token that starts while the flag is set, and any
    character that is neither a [tchar], white space nor a comma, is a
    syntax error: the iterator becomes [end()] and the tokens read so far
    stand. *)
Fixpoint token_list_from (need_comma : bool) (cur : string) (s : string)
  : list string :=
  match s with
  | EmptyString =>
      match cur with EmptyString => [] | _ => [cur] end
  | String c s' =>
      if is_token_char c then
        match cur with
        | EmptyString =>
            if need_comma then []
            else token_list_from need_comma (String c EmptyString) s'
        | _ => token_list_from need_comma (cur ++ String c EmptyString) s'
        end
      else
        let rest :=
          let need_comma' :=
            match cur with EmptyString => need_comma | _ => true end in
          if is_ows c then token_list_from need_comma' EmptyString s'
          else if Ascii.eqb c ","%char
               then token_list_from false EmptyString s'
          else [] in
        match cur with EmptyString => rest | _ => cur :: rest end
  end.

Definition token_list (s : string) : list string :=
  token_list_from false EmptyString s.

(** [token_list::exists]. *)
Definition token_exists (s : string) (tok : string) : bool :=
  existsb (iequals tok) (token_list s).

(** Tokens are written back separated by [", "]. *)
Fixpoint join_tokens (l : list string) : string :=
  match l with
  | [] => EmptyString
  | [t] => t
  | t :: l' => t ++ ", " ++ join_tokens l'
  end.

(** [detail::filter_token_list]: drop every token satisfying [pred]. *)
Definition filter_token_list (value : string) (pred : string -> bool)
  : string :=
  join_tokens (filter (fun t => negb (pred t)) (token_list value)).

(** [detail::filter_token_list_last]: drop the last token if it satisfies
    [pred]. *)
Fixpoint drop_last_if (pred : string -> bool) (l : list string)
  : list string :=
  match l with
  | [] => []
  | [t] => if pred t then [] else [t]
  | t :: l' => t :: drop_last_if pred l'
  end.

Definition filter_token_list_last (value : string) (pred : string -> bool)
  : string :=
  join_tokens (drop_last_if pred (token_list value)).

(** [detail::keep_alive]: the new value of the [Connection] field. *)
Definition connection_value (value : string) (version : nat)
           (keep_alive : bool) : string :=
  if version <? 11 then
    if keep_alive then
      let s := filter_token_list value (iequals "close") in
      match s with
      | EmptyString => "keep-alive"
      | _ => if token_exists value "keep-alive" then s
             else s ++ ", keep-alive"
      end
    else
      filter_token_list value
        (fun t => iequals "close" t || iequals "keep-alive" t)
  else
    if keep_alive then
      filter_token_list value
        (fun t => iequals "close" t || iequals "keep-alive" t)
    else
      let s := filter_token_list value (iequals "keep-alive") in
      match s with
      | EmptyString => "close"
      | _ => if token_exists value "close" then s else s ++ ", close"
      end.

Module http.

(** [http::error::end_of_stream]: the peer closed the connection before
    any byte of a new message. *)
Definition end_of_stream : error_code := mk_error_code 1 http_category.

(** [http::verb]. *)
Module verb.
Inductive t : Type :=
| unknown | delete_ | get | head | post | put | connect | options
| trace | copy | lock | mkcol | move | propfind | proppatch | search
| unlock | bind | rebind | unbind | acl | report | mkactivity
| checkout | merge | msearch | notify | subscribe | unsubscribe
| patch | purge | mkcalendar | link | unlink.

(** [operator==] on verbs. *)
Definition eqb (a b : t) : bool :=
  match a, b with
  | unknown, unknown | delete_, delete_ | get, get | head, head
  | post, post | put, put | connect, connect | options, options
  | trace, trace | copy, copy | lock, lock | mkcol, mkcol
  | move, move | propfind, propfind | proppatch, proppatch
  | search, search | unlock, unlock | bind, bind | rebind, rebind
  | unbind, unbind | acl, acl | report, report
  | mkactivity, mkactivity | checkout, checkout | merge, merge
  | msearch, msearch | notify, notify | subscribe, subscribe
  | unsubscribe, unsubscribe | patch, patch | purge, purge
  | mkcalendar, mkcalendar | link, link | unlink, unlink => true
  | _, _ => false
  end.
End verb.

(** [http::status], by the integer code of the enumerator. *)
Definition status : Type := nat.
Definition ok : status := 200.
Definition no_content : status := 204.
Definition not_modified : status := 304.
Definition method_not_allowed : status := 405.

(** [to_status_class(s) == status_class::informational]: a [1xx] code. *)
Definition informational (s : status) : bool := Nat.div s 100 =? 1.

(** [http::field], by the name [to_string] gives it. *)
Module field.
Definition allow : string := "Allow".
Definition connection : string := "Connection".
Definition content_length : string := "Content-Length".
Definition content_type : string := "Content-Type".
Definition transfer_encoding : string := "Transfer-Encoding".
End field.

(** ** [basic_fields]: name/value pairs in insertion order, names
    compared without regard to case. *)
Definition fields : Type := list (string * string).

Definition find (name : string) (fs : fields) : option string :=
  match List.find (fun nv => iequals name (fst nv)) fs with
  | Some nv => Some (snd nv)
  | None => None
  end.

(** [operator[]]: the value, or the empty string. *)
Definition at_ (name : string) (fs : fields) : string :=
  match find name fs with Some v => v | None => EmptyString end.

Definition count (name : string) (fs : fields) : nat :=
  List.length (filter (fun nv => iequals name (fst nv)) fs).

Definition erase (name : string) (fs : fields) : fields :=
  filter (fun nv => negb (iequals name (fst nv))) fs.

(** [set]: remove every field of that name, then insert. *)
Definition set (name value : string) (fs : fields) : fields :=
  (erase name fs ++ [(name, value)])%list.

(** [get_keep_alive_impl]. *)
Definition get_keep_alive (version : nat) (fs : fields) : bool :=
  match find field.connection fs with
  | None => negb (version <? 11)
  | Some v =>
      if version <? 11 then token_exists v "keep-alive"
      else negb (token_exists v "close")
  end.

(** [set_keep_alive_impl]. *)
Definition set_keep_alive (version : nat) (keep_alive : bool)
           (fs : fields) : fields :=
  match connection_value (at_ field.connection fs) version keep_alive with
  | EmptyString => erase field.connection fs
  | s => set field.connection s fs
  end.

(** [get_chunked_impl]: the last transfer coding is [chunked]. *)
Definition get_chunked (fs : fields) : bool :=
  match rev (token_list (at_ field.transfer_encoding fs)) with
  | t :: _ => iequals t "chunked"
  | [] => false
  end.

(** [set_chunked_impl(false)]. *)
Definition unset_chunked (fs : fields) : fields :=
  match find field.transfer_encoding fs with
  | None => fs
  | Some v =>
      match filter_token_list_last v (iequals "chunked") with
      | EmptyString => erase field.transfer_encoding fs
      | s => set field.transfer_encoding s fs
      end
  end.

(** [to_static_string]: the decimal digits of a size. *)
Definition to_static_string (n : nat) : string :=
  NilZero.string_of_uint (Nat.to_uint n).

(** [set_content_length_impl] followed by [set_chunked_impl(false)]. *)
Definition set_content_length (n : nat) (fs : fields) : fields :=
  unset_chunked (set field.content_length (to_static_string n) fs).

(** ** [http::request<http::string_body>]. *)
Module request.
Record t : Type := mk {
  method  : verb.t;
  target  : string;
  version : nat;
  base    : fields;
  body    : string
}.

(** A default-constructed request. *)
Definition empty : t := mk verb.unknown EmptyString 11 [] EmptyString.

Definition keep_alive (m : t) : bool :=
  get_keep_alive (version m) (base m).
End request.

(** ** [http::response<http::string_body>]. *)
Module response.
Record t : Type := mk {
  result  : status;
  version : nat;
  base    : fields;
  body    : string
}.

(** [response(status, version)]: no fields, empty body. *)
Definition make (s : status) (v : nat) : t := mk s v [] EmptyString.

Definition with_base (f : fields -> fields) (m : t) : t :=
  mk (result m) (version m) (f (base m)) (body m).

Definition set (name value : string) : t -> t :=
  with_base (http.set name value).

Definition set_body (b : string) (m : t) : t :=
  mk (result m) (version m) (base m) b.

Definition content_length (n : nat) : t -> t :=
  with_base (set_content_length n).

Definition set_keep_alive (value : bool) (m : t) : t :=
  with_base (http.set_keep_alive (version m) value) m.

Definition keep_alive (m : t) : bool :=
  get_keep_alive (version m) (base m).

Definition has_content_length (m : t) : bool :=
  0 <? count field.content_length (base m).

Definition chunked (m : t) : bool := get_chunked (base m).

(** The condition under which [need_eof] lets keep-alive decide:
    a status that never has a body, or a length given by
    [Content-Length] or by chunking. *)
Definition delimited (m : t) : bool :=
  (result m =? no_content) || (result m =? not_modified)
  || informational (result m) || has_content_length m || chunked m.

(** [need_eof] of a response: whether the connection must be closed
    to mark the end of the message. *)
Definition need_eof (m : t) : bool :=
  if delimited m then negb (keep_alive m) else true.
End response.

End http.
End beast.

(* ================================================================== *)
(** * sync_server/solution/src/main.cpp                                *)
(* ================================================================== *)

Module sync_server.
Import beast beast.http.

Definition StringRequest : Type := request.t.
Definition StringResponse : Type := response.t.

Module ContentType.
Definition TEXT_HTML : string := "text/html".
End ContentType.

(** [MakeStringResponse].  Its callers leave [content_type] at its default,
    [ContentType::TEXT_HTML], which they pass here. *)
Definition MakeStringResponse (status : http.status) (body : string)
           (http_version : nat) (keep_alive : bool)
           (content_type : string) : StringResponse :=
  let response := response.make status http_version in
  let response := response.set field.content_type content_type response in
  let response := response.set_body body response in
  let response := response.content_length (String.length body) response in
  let response := response.set_keep_alive keep_alive response in
  response.

(** The first lines of [HandleRequest]: the target with one leading ['/']
    removed, if there is one. *)
Definition strip_target (target : string) : string :=
  match target with
  | String c rest => if Ascii.eqb c "/"%char then rest else target
  | EmptyString => target
  end.

Definition HandleRequest (req : StringRequest) : StringResponse :=
  let method := request.method req in
  let target := strip_target (request.target req) in
  if verb.eqb method verb.get then
    let body := "Hello, " ++ target in
    MakeStringResponse ok body (request.version req)
                       (request.keep_alive req) ContentType.TEXT_HTML
  else if verb.eqb method verb.head then
    let body := "Hello, " ++ target in
    let response := response.make ok (request.version req) in
    let response :=
      response.set field.content_type ContentType.TEXT_HTML response in
    let response := response.content_length (String.length body) response in
    let response :=
      response.set_keep_alive (request.keep_alive req) response in
    response
  else
    let body := "Invalid method." in
    let response :=
      response.make method_not_allowed (request.version req) in
    let response :=
      response.set field.content_type ContentType.TEXT_HTML response in
    let response := response.set field.allow "GET, HEAD" response in
    let response := response.set_body body response in
    let response := response.content_length (String.length body) response in
    let response :=
      response.set_keep_alive (request.keep_alive req) response in
    response.

End sync_server.

(* ================================================================== *)
(** * async_server/solution/src/http_server.{h,cpp}                    *)
(* ================================================================== *)

Module http_server.
Import beast beast.http.

Definition HttpRequest : Type := request.t.
(** [Write] is a template over the response type; the servers of this
    repository answer with string bodies. *)
Definition HttpResponse : Type := response.t.

(** [beast::flat_buffer]: the bytes read from the socket and not yet
    consumed by the parser. *)
Definition flat_buffer : Type := string.

(** [tcp::socket], by its descriptor. *)
Definition tcp_socket : Type := nat.

(** What a method does to the world outside the object it runs on: the
    asynchronous operations it starts and the calls it makes on the socket,
    the stream timer and [std::cerr], in program order. *)
Inductive action : Type :=
| cerr (what : string) (ec : error_code)
    (* ReportError: [what << ": " << ec.message()] *)
| shutdown_send
    (* stream_.socket().shutdown(tcp::socket::shutdown_send, ec) *)
| expires_after (seconds : nat)
    (* stream_.expires_after(30s) *)
| async_read (buffer : flat_buffer)
    (* http::async_read(stream_, buffer_, request_, OnRead): [buffer] is
       what buffer_ holds when the read starts *)
| async_write (response : HttpResponse)
    (* http::async_write(stream_, *safe_response, ...) *)
| dispatch_read
    (* net::dispatch(stream_.get_executor(), Read) *)
| async_accept
    (* acceptor_.async_accept(net::make_strand(ioc_), OnAccept) *)
| on_session (socket : tcp_socket) (a : action).
    (* an action of the session made over [socket] *)

(** ** Methods: state passing with a log of actions. *)

Definition M (S A : Type) : Type := S -> A * S * list action.

Definition ret {S A} (a : A) : M S A := fun s => (a, s, []).

Definition bind {S A B} (m : M S A) (k : A -> M S B) : M S B :=
  fun s =>
    let '(a, s1, l1) := m s in
    let '(b, s2, l2) := k a s1 in
    (b, s2, (l1 ++ l2)%list).

Definition get_state {S} : M S S := fun s => (s, s, []).
Definition put_state {S} (s' : S) : M S unit :=
  fun _ => (tt, s', []).
Definition emit {S} (a : action) : M S unit := fun s => (tt, s, [a]).

Notation "x <- m ;; k" := (bind m (fun x => k))
  (at level 61, m at next level, right associativity).
Notation "m ;; k" := (bind m (fun _ => k))
  (at level 61, right associativity).

(** The log of a run. *)
Definition actions_of {S A} (r : A * S * list action) : list action :=
  snd r.

(** [ReportError]. *)
Definition ReportError {S} (ec : error_code) (what : string) : M S unit :=
  emit (cerr what ec).

(** ** [SessionBase] and [Session<RequestHandler>] *)

Record SessionBase : Type := mkSessionBase {
  stream_  : tcp_socket;      (* beast::tcp_stream over the socket *)
  buffer_  : flat_buffer;
  request_ : HttpRequest
}.

(** [SessionBase(tcp::socket&&)]. *)
Definition SessionBase_new (socket : tcp_socket) : SessionBase :=
  mkSessionBase socket EmptyString request.empty.

Definition set_request_ (r : HttpRequest) : M SessionBase unit :=
  s <- get_state ;; put_state (mkSessionBase (stream_ s) (buffer_ s) r).

Definition Run : M SessionBase unit := emit dispatch_read.

Definition Close : M SessionBase unit := emit shutdown_send.

Definition Read : M SessionBase unit :=
  set_request_ request.empty ;;
  emit (expires_after 30) ;;
  s <- get_state ;;
  emit (async_read (buffer_ s)).

Definition OnWrite (close : bool) (ec : error_code) (bytes_written : nat)
  : M SessionBase unit :=
  if failed ec then ReportError ec "write"
  else if close then Close
  else Read.

(** [Write]: the response moves to the heap and the write starts. *)
Definition Write (response : HttpResponse) : M SessionBase unit :=
  emit (async_write response).

(** The completion handler [Write] gives to [async_write], for the
    response [safe_response] it captured. *)
Definition Write_handler (safe_response : HttpResponse) (ec : error_code)
           (bytes_written : nat) : M SessionBase unit :=
  OnWrite (response.need_eof safe_response) ec bytes_written.

Section Session.
(** [RequestHandler]: called with the request and a [send] continuation,
    which it may call at once or leave for later. *)
Variable request_handler_ :
  HttpRequest -> (HttpResponse -> M SessionBase unit) -> M SessionBase unit.

(** [Session::HandleRequest]. *)
Definition HandleRequest (request : HttpRequest) : M SessionBase unit :=
  request_handler_ request (fun response => Write response).

Definition OnRead (ec : error_code) (bytes_read : nat)
  : M SessionBase unit :=
  if error_code_eqb ec end_of_stream then Close
  else if failed ec then ReportError ec "read"
  else (s <- get_state ;; HandleRequest (request_ s)).
End Session.

(** ** [Listener<RequestHandler>] *)

(** [net::io_context], as far as the listener is concerned: running, or
    stopped ([io_context::stopped()]). *)
Record io_context : Type := mk_io_context { stopped : bool }.

Record Listener : Type := mkListener { ioc_ : io_context }.

Definition DoAccept : M Listener unit := emit async_accept.

(** [Listener::Run]. *)
Definition Listener_Run : M Listener unit := DoAccept.

(** [make_shared<Session>(socket, request_handler_)->Run()]: the actions
    of the new session's [Run], marked with its socket. *)
Definition AsyncRunSession (socket : tcp_socket) : M Listener unit :=
  fun l =>
    (tt, l,
     map (on_session socket) (actions_of (Run (SessionBase_new socket)))).

Definition OnAccept (ec : error_code) (socket : tcp_socket)
  : M Listener unit :=
  if failed ec then ReportError ec "accept"
  else (AsyncRunSession socket ;; DoAccept).

End http_server.

(* ================================================================== *)
(** * Inputs used to exercise the definitions                          *)
(* ================================================================== *)

Module examples.
Import beast beast.http http_server.

(** [GET /abc HTTP/1.1] with [Host: x]. *)
Definition get_abc : request.t :=
  request.mk verb.get "/abc" 11 [("Host", "x")] EmptyString.

(** [HEAD /abc HTTP/1.0] asking for keep-alive. *)
Definition head_abc : request.t :=
  request.mk verb.head "/abc" 10
             [("Host", "x"); ("connection", "Keep-Alive")] EmptyString.

(** [POST /abc HTTP/1.1] asking to close. *)
Definition post_abc : request.t :=
  request.mk verb.post "/abc" 11
             [("Host", "x"); ("Connection", "close")] "payload".

(** A handler that answers at once with the synchronous server's
    [HandleRequest]. *)
Definition sync_handler (req : HttpRequest)
           (send : HttpResponse -> M SessionBase unit)
  : M SessionBase unit :=
  send (sync_server.HandleRequest req).

(** A session over socket 7 whose buffer holds bytes left from an earlier
    read and whose request holder has the last request. *)
Definition session7 : SessionBase := mkSessionBase 7 "GET /" get_abc.

(** A listener on a running context. *)
Definition running_listener : Listener :=
  mkListener (mk_io_context false).

(** A [200] over HTTP/1.1 with a body and no header field at all: nothing
    tells the client where the body ends. *)
Definition bare_ok : response.t := response.mk ok 11 [] "x".
End examples.

(* ================================================================== *)
(** * Vocabulary of the statements                                     *)
(* ================================================================== *)

Module spec.
Import beast beast.http.

(** The greeting [HandleRequest] sends for GET and measures for HEAD, for
    the request target [target]. *)
Definition greeting (target : string) : string :=
  "Hello, " ++ sync_server.strip_target target.

(** The request declares the connection option [tok]: it is one of the
    tokens of its [Connection] field. *)
Definition declares (req : request.t) (tok : string) : bool :=
  token_exists (at_ field.connection (request.base req)) tok.

(** The [Connection] field [keep_alive(value)] leaves on a message of the
    given version that had none. *)
Definition connection_field (version : nat) (value : bool) : fields :=
  match version <? 11, value with
  | true, true => [(field.connection, "keep-alive")]
  | false, false => [(field.connection, "close")]
  | _, _ => []
  end.
End spec.

(* ================================================================== *)
(** * sync_server/solution/src/main.cpp: one connection                *)
(* ================================================================== *)

Module sync_connection.
Import beast beast.http sync_server.

(** The exceptions [HandleConnection] can catch: the [std::runtime_error]
    of [ReadRequest], and the [system_error] the throwing overload of
    [http::write] raises. *)
Inductive exception : Type :=
| runtime_error (what : string)
| system_error (ec : error_code).

(** A call that returns a value or throws. *)
Inductive outcome (A : Type) : Type :=
| returned (a : A)
| thrown (e : exception).
Arguments returned {A} a.
Arguments thrown {A} e.

(** What the socket does in one iteration of the loop: the error code and
    the request [http::read] delivers, and the error code the write of the
    answer meets. *)
Record turn : Type := mk_turn {
  read_ec  : error_code;
  read_req : StringRequest;
  write_ec : error_code
}.

(** What the connection handler does, in program order. *)
Inductive output : Type :=
| cout_request (req : StringRequest)
    (* DumpRequest(req): method, target and header lines on std::cout *)
| write (response : StringResponse)
    (* http::write(socket, response) *)
| cerr_what (e : exception)
    (* std::cerr << e.what() *)
| shutdown_send.
    (* socket.shutdown(tcp::socket::shutdown_send, ec) *)

(** How the [while] loop is left; [blocked] when the peer neither sends
    nor closes, so that [http::read] does not return. *)
Inductive ending : Type :=
| blocked
| left_loop
| threw (e : exception).

(** A run of [HandleConnection]: it returns, or it stays in a read. *)
Inductive run : Type :=
| returns (log : list output)
| blocks (log : list output).

Definition log_of (r : run) : list output :=
  match r with returns l | blocks l => l end.

Section Connection.
(** [error_code::message]. *)
Variable message : error_code -> string.

Definition ReadRequest (t : turn) : outcome (option StringRequest) :=
  if error_code_eqb (read_ec t) end_of_stream then returned None
  else if failed (read_ec t) then
    thrown (runtime_error ("Failed to read request: " ++ message (read_ec t)))
  else returned (Some (read_req t)).

Definition DumpRequest (req : StringRequest) : list output :=
  [cout_request req].

(** The [try] block of [HandleConnection]: one turn of the socket for each
    iteration. *)
Fixpoint serve_loop (handle_request : StringRequest -> StringResponse)
         (script : list turn) : ending * list output :=
  match script with
  | [] => (blocked, [])
  | t :: rest =>
      match ReadRequest t with
      | thrown e => (threw e, [])
      | returned None => (left_loop, [])
      | returned (Some request) =>
          let response := handle_request request in
          let done := (DumpRequest request ++ [write response])%list in
          if failed (write_ec t) then
            (threw (system_error (write_ec t)), done)
          else if response.need_eof response then (left_loop, done)
          else
            let '(e, l) := serve_loop handle_request rest in
            (e, (done ++ l)%list)
      end
  end.

Definition HandleConnection
           (handle_request : StringRequest -> StringResponse)
           (script : list turn) : run :=
  match serve_loop handle_request script with
  | (blocked, l) => blocks l
  | (left_loop, l) => returns (l ++ [shutdown_send])%list
  | (threw e, l) => returns (l ++ [cerr_what e; shutdown_send])%list
  end.
End Connection.

(** ** Vocabulary for the statements about a connection *)

(** The turn lets the loop go round again: the read and the write succeed
    and the answer does not ask for the connection to be closed. *)
Definition goes_on (handle_request : StringRequest -> StringResponse)
           (t : turn) : bool :=
  negb (failed (read_ec t)) && negb (failed (write_ec t))
  && negb (response.need_eof (handle_request (read_req t))).

(** The read and the write of the turn both succeed. *)
Definition io_ok (t : turn) : bool :=
  negb (failed (read_ec t)) && negb (failed (write_ec t)).

(** What a turn whose request is read adds to the log. *)
Definition serves (handle_request : StringRequest -> StringResponse)
           (t : turn) : list output :=
  [cout_request (read_req t); write (handle_request (read_req t))].

Definition requests_dumped (l : list output) : list StringRequest :=
  flat_map (fun o => match o with cout_request r => [r] | _ => [] end) l.

Definition responses_written (l : list output) : list StringResponse :=
  flat_map (fun o => match o with write r => [r] | _ => [] end) l.

Definition is_cerr (o : output) : bool :=
  match o with cerr_what _ => true | _ => false end.

Definition is_shutdown (o : output) : bool :=
  match o with shutdown_send => true | _ => false end.

End sync_connection.

(* ================================================================== *)
(** * The life of a session and of a listener                          *)
(* ================================================================== *)

(** The methods of [SessionBase] are completion handlers: each asynchronous
    operation a method starts names the method Boost.Asio calls, once, when
    the operation completes.  [session_run] plays that part: it keeps the
    operations outstanding and, for each completion the environment
    delivers, runs the handler the source bound to the operation. *)
Module session_run.
Import beast beast.http http_server.

(** The completion of an outstanding operation. *)
Inductive completion : Type :=
| dispatched
    (* the executor runs the handler given to net::dispatch *)
| read_done (ec : error_code) (bytes_read : nat)
            (parsed : HttpRequest) (rest : flat_buffer)
    (* async_read is over: request_ holds [parsed], buffer_ holds [rest] *)
| write_done (ec : error_code) (bytes_written : nat).
    (* async_write is over *)

Record world : Type := mk_world {
  session : SessionBase;
  pending : list action;     (* operations started and not completed *)
  log     : list action      (* everything done so far *)
}.

(** The action starts an asynchronous operation of the session. *)
Definition starts_io (a : action) : bool :=
  match a with
  | async_read _ | async_write _ | dispatch_read => true
  | _ => false
  end.

Definition remove_nth {A} (i : nat) (l : list A) : list A :=
  (firstn i l ++ skipn (S i) l)%list.

(** The world after operation [i] completed and its handler [m] ran on the
    session [s]. *)
Definition after (w : world) (i : nat) (s : SessionBase)
           (m : M SessionBase unit) : world :=
  let '(_, s', l) := m s in
  mk_world s' (remove_nth i (pending w) ++ filter starts_io l)%list
           (log w ++ l)%list.

Section Run.
Variable request_handler_ :
  HttpRequest -> (HttpResponse -> M SessionBase unit) -> M SessionBase unit.

(** The completion [c] of the [i]-th outstanding operation; [None] when
    there is no such operation or [c] is not of its kind. *)
Definition step (i : nat) (c : completion) (w : world) : option world :=
  match nth_error (pending w) i, c with
  | Some dispatch_read, dispatched =>
      Some (after w i (session w) Read)
  | Some (async_read _), read_done ec n parsed rest =>
      Some (after w i (mkSessionBase (stream_ (session w)) rest parsed)
                  (OnRead request_handler_ ec n))
  | Some (async_write safe_response), write_done ec n =>
      Some (after w i (session w) (Write_handler safe_response ec n))
  | _, _ => None
  end.

Fixpoint run (cs : list (nat * completion)) (w : world) : option world :=
  match cs with
  | [] => Some w
  | (i, c) :: cs' =>
      match step i c w with
      | Some w' => run cs' w'
      | None => None
      end
  end.
End Run.

(** A session just made over [socket], after [SessionBase::Run]. *)
Definition start (socket : tcp_socket) : world :=
  after (mk_world (SessionBase_new socket) [] []) 0
        (SessionBase_new socket) Run.

(** A request handler that computes its response with [f] and sends it
    before it returns. *)
Definition answer (f : HttpRequest -> HttpResponse) (req : HttpRequest)
           (send : HttpResponse -> M SessionBase unit)
  : M SessionBase unit :=
  send (f req).

(** ** Vocabulary for the statements about a session *)

(** The actions with which a session served by [answer f] meets the
    completion [c] of its only outstanding operation. *)
Definition reaction (f : HttpRequest -> HttpResponse) (c : completion)
           (w : world) : list action :=
  let read_again :=
    [expires_after 30; async_read (buffer_ (session w))] in
  match c with
  | dispatched => read_again
  | read_done ec _ parsed _ =>
      if error_code_eqb ec end_of_stream then [shutdown_send]
      else if failed ec then [cerr "read" ec]
      else [async_write (f parsed)]
  | write_done ec _ =>
      if failed ec then [cerr "write" ec]
      else match pending w with
           | async_write r :: _ =>
               if response.need_eof r then [shutdown_send] else read_again
           | _ => []
           end
  end.

(** The action ends the session: a shutdown of the send half or an error
    report. *)
Definition is_closing (a : action) : bool :=
  match a with
  | shutdown_send | cerr _ _ => true
  | _ => false
  end.

(** The completion is of the kind of the operation. *)
Definition completes (op : action) (c : completion) : Prop :=
  match op, c with
  | dispatch_read, dispatched
  | async_read _, read_done _ _ _ _
  | async_write _, write_done _ _ => True
  | _, _ => False
  end.

(** Either one operation is outstanding and nothing was closed, or none
    is and the log ends with its only closing action. *)
Definition settled (w : world) : Prop :=
  length (pending w) + length (filter is_closing (log w)) = 1 /\
  (pending w = [] ->
   exists l a, log w = (l ++ [a])%list /\ is_closing a = true).

Definition responses_written (l : list action) : list HttpResponse :=
  flat_map (fun a => match a with async_write r => [r] | _ => [] end) l.

(** The requests of the reads that completed without error. *)
Definition requests_read (cs : list (nat * completion))
  : list HttpRequest :=
  flat_map (fun ic => match snd ic with
                      | read_done ec _ parsed _ =>
                          if failed ec then [] else [parsed]
                      | _ => []
                      end) cs.

(** Every read in the log comes right after the stream's deadline was set
    to 30 seconds; [armed] says whether the action before was that. *)
Fixpoint reads_armed (armed : bool) (l : list action) : bool :=
  match l with
  | [] => true
  | a :: l' =>
      (match a with async_read _ => armed | _ => true end)
      && reads_armed (match a with
                      | expires_after n => n =? 30
                      | _ => false
                      end) l'
  end.

(** The completions a session sees when the socket behaves as in the
    turns of a synchronous connection: it is started, and then each turn's
    read completes and, after it, the write of the answer; every read
    takes all the bytes there are. *)
Definition cycle (t : sync_connection.turn) : list (nat * completion) :=
  [(0, read_done (sync_connection.read_ec t) 0
                 (sync_connection.read_req t) EmptyString);
   (0, write_done (sync_connection.write_ec t) 0)].

Definition completions_of (script : list sync_connection.turn)
  : list (nat * completion) :=
  (0, dispatched) :: flat_map cycle script.

End session_run.

(** [Listener::OnAccept] is the completion handler of the accept that
    [DoAccept] starts; [accept_loop] delivers the accepts' outcomes. *)
Module accept_loop.
Import beast beast.http http_server.

Record world : Type := mk_world {
  listener : Listener;
  accepts  : nat;            (* accepts started and not completed *)
  log      : list action
}.

Definition starts_accept (a : action) : bool :=
  match a with async_accept => true | _ => false end.

Definition after (w : world) (completed : nat) (m : M Listener unit)
  : world :=
  let '(_, l', acts) := m (listener w) in
  mk_world l' (accepts w - completed + length (filter starts_accept acts))
           (log w ++ acts)%list.

(** An accept completes with [ec] and, if it succeeded, the new
    connection's [socket]; [None] when no accept is outstanding. *)
Definition step (o : error_code * tcp_socket) (w : world) : option world :=
  match accepts w with
  | 0 => None
  | S _ => Some (after w 1 (OnAccept (fst o) (snd o)))
  end.

Fixpoint run (os : list (error_code * tcp_socket)) (w : world)
  : option world :=
  match os with
  | [] => Some w
  | o :: os' =>
      match step o w with
      | Some w' => run os' w'
      | None => None
      end
  end.

(** A listener after [Listener::Run]. *)
Definition start (l : Listener) : world :=
  after (mk_world l 0 []) 0 Listener_Run.

Definition accepted (o : error_code * tcp_socket) : bool :=
  negb (failed (fst o)).

(** What a successful accept adds to the log. *)
Definition welcomes (o : error_code * tcp_socket) : list action :=
  [on_session (snd o) dispatch_read; async_accept].

End accept_loop.

(** Scripts used to exercise the connection and the runs. *)
Module scripts.
Import beast beast.http http_server.

Definition message (ec : error_code) : string :=
  match category ec with
  | system_category => "system error"
  | beast_category => "beast error"
  | http_category => "http error"
  end.

(** [HEAD /abc HTTP/1.1]. *)
Definition head_abc11 : request.t :=
  request.mk verb.head "/abc" 11 [("Host", "x")] EmptyString.

(** [GET /abc HTTP/1.1] as [examples.get_abc], with another host, a cookie
    and a body. *)
Definition get_abc_loaded : request.t :=
  request.mk verb.get "/abc" 11
             [("Host", "y"); ("Cookie", "k=v")] "ignored".

(** [GET / HTTP/1.1] asking to close. *)
Definition get_root_close : request.t :=
  request.mk verb.get "/" 11 [("Host", "x"); ("Connection", "close")]
             EmptyString.

Definition good (req : request.t) : sync_connection.turn :=
  sync_connection.mk_turn success req success.

(** The peer closes: [http::read] reports end of stream. *)
Definition peer_closes : sync_connection.turn :=
  sync_connection.mk_turn end_of_stream request.empty success.

(** The read fails after the idle time. *)
Definition read_times_out : sync_connection.turn :=
  sync_connection.mk_turn timeout request.empty success.

(** The request arrives but the answer cannot be written. *)
Definition write_breaks (req : request.t) : sync_connection.turn :=
  sync_connection.mk_turn success req broken_pipe.

(** A session's life: started, it reads [GET /abc] while the first bytes
    of the next request are already in the buffer, answers, reads
    [GET /] with [Connection: close], and answers. *)
Definition two_requests : list (nat * session_run.completion) :=
  [(0, session_run.dispatched);
   (0, session_run.read_done success 36 examples.get_abc "GET / HT");
   (0, session_run.write_done success 90);
   (0, session_run.read_done success 50 get_root_close EmptyString);
   (0, session_run.write_done success 99)].

(** Where [two_requests] leaves the session over socket 7. *)
Definition two_requests_end : session_run.world :=
  session_run.mk_world
    (mkSessionBase 7 EmptyString get_root_close)
    []
    [dispatch_read;
     expires_after 30; async_read EmptyString;
     async_write (sync_server.HandleRequest examples.get_abc);
     expires_after 30; async_read "GET / HT";
     async_write (sync_server.HandleRequest get_root_close);
     shutdown_send].

(** Three connections are accepted, then an accept fails. *)
Definition three_accepts : list (error_code * tcp_socket) :=
  [(success, 7); (success, 8); (success, 9)].
End scripts.

(* ================================================================== *)
(** * Properties of the library model                                 *)
(* ================================================================== *)

Section BeastFacts.
Import beast beast.http spec.

Lemma iequals_refl (a : string) : iequals a a = true.
Proof.
  induction a as [|c a IH]; simpl; [reflexivity|].
  now rewrite Ascii.eqb_refl, IH.
Qed.

Lemma find_erase_same (name : string) (fs : fields) :
  find name (erase name fs) = None.
Proof.
  unfold find, erase.
  induction fs as [|[n v] fs IH]; simpl; [reflexivity|].
  destruct (iequals name n) eqn:E; simpl; [exact IH|].
  now rewrite E.
Qed.

Lemma erase_absent (name : string) (fs : fields) :
  find name fs = None -> erase name fs = fs.
Proof.
  unfold find, erase.
  induction fs as [|[n v] fs IH]; simpl; [reflexivity|].
  destruct (iequals name n) eqn:E; simpl; [discriminate|].
  intros H. now rewrite IH.
Qed.

Lemma find_app (name : string) (fs gs : fields) :
  find name (fs ++ gs)%list =
  match find name fs with Some v => Some v | None => find name gs end.
Proof.
  unfold find.
  induction fs as [|[n v] fs IH]; simpl; [now destruct (List.find _ gs)|].
  destruct (iequals name n); [reflexivity|exact IH].
Qed.

(** Setting keep-alive on a message without a [Connection] field appends
    at most one field and touches no other. *)
Lemma set_keep_alive_fresh (v : nat) (b : bool) (fs : fields) :
  find field.connection fs = None ->
  set_keep_alive v b fs = (fs ++ connection_field v b)%list.
Proof.
  intros H. unfold set_keep_alive, at_, connection_field, connection_value.
  rewrite H.
  destruct (v <? 11), b; cbn;
    unfold set; rewrite ?(erase_absent _ _ H), ?app_nil_r; reflexivity.
Qed.

(** What was set is what is read back. *)
Lemma get_keep_alive_fresh (v : nat) (b : bool) (fs : fields) :
  find field.connection fs = None ->
  get_keep_alive v (fs ++ connection_field v b)%list = b.
Proof.
  intros H. unfold get_keep_alive. rewrite find_app, H.
  unfold connection_field.
  destruct (v <? 11) eqn:E, b; cbn; rewrite ?E; reflexivity.
Qed.

Lemma keep_alive_set_keep_alive (v : nat) (b : bool) (fs : fields) :
  find field.connection fs = None ->
  get_keep_alive v (set_keep_alive v b fs) = b.
Proof.
  intros H. rewrite set_keep_alive_fresh by exact H.
  now apply get_keep_alive_fresh.
Qed.

Example token_list_stops_at_error :
  token_list "close, foo bar" = ["close"; "foo"].
Proof. reflexivity. Qed.

Example token_list_skips_empty_elements :
  token_list ",, a ,b,,c;d" = ["a"; "b"; "c"].
Proof. reflexivity. Qed.

Example keep_alive_ignores_case :
  get_keep_alive 10 [("connection", "Upgrade, Keep-Alive")] = true /\
  get_keep_alive 11 [("CONNECTION", "CLOSE")] = false.
Proof. split; reflexivity. Qed.

(** A response that has keep-alive off always needs the connection
    closed. *)
Lemma need_eof_of_keep_alive_false (r : response.t) :
  response.keep_alive r = false -> response.need_eof r = true.
Proof.
  intros H. unfold response.need_eof. rewrite H.
  now destruct (response.delimited r).
Qed.

Lemma need_eof_false_iff (r : response.t) :
  response.need_eof r = false <->
  response.keep_alive r = true /\ response.delimited r = true.
Proof.
  unfold response.need_eof.
  destruct (response.delimited r), (response.keep_alive r); cbn;
    intuition congruence.
Qed.

End BeastFacts.

(* ================================================================== *)
(** * The request handler of the synchronous server                    *)
(* ================================================================== *)

Section SyncServerFacts.
Import beast beast.http sync_server spec.

Lemma verb_eqb_eq (a b : verb.t) : verb.eqb a b = true <-> a = b.
Proof.
  split.
  - destruct a, b; cbn; intros H; solve [reflexivity | discriminate H].
  - intros ->. destruct b; reflexivity.
Qed.

Lemma verb_eqb_neq (a b : verb.t) : a <> b -> verb.eqb a b = false.
Proof.
  intros H. destruct (verb.eqb a b) eqn:E; [|reflexivity].
  apply verb_eqb_eq in E. contradiction.
Qed.

Lemma strip_target_slash (t : string) :
  strip_target (String "/"%char t) = t.
Proof. reflexivity. Qed.

Lemma strip_target_other (c : ascii) (t : string) :
  c <> "/"%char -> strip_target (String c t) = String c t.
Proof.
  intros H. simpl. destruct (Ascii.eqb_spec c "/"%char); congruence.
Qed.

Lemma strip_target_empty : strip_target EmptyString = EmptyString.
Proof. reflexivity. Qed.

Example strip_target_once : strip_target "//a" = "/a".
Proof. reflexivity. Qed.

Ltac run_handler :=
  unfold HandleRequest, MakeStringResponse;
  unfold response.set_keep_alive, response.content_length, response.set,
    response.set_body, response.with_base, response.make;
  cbn [response.result response.version response.base response.body].

(** The three responses of [HandleRequest], field by field. *)
Lemma response_of_get (req : StringRequest) :
  request.method req = verb.get ->
  HandleRequest req =
  response.mk 200 (request.version req)
    ([(field.content_type, "text/html");
      (field.content_length,
       to_static_string (String.length (greeting (request.target req))))]
     ++ connection_field (request.version req) (request.keep_alive req))%list
    (greeting (request.target req)).
Proof.
  intros Hm. run_handler. rewrite Hm. cbn [verb.eqb].
  rewrite set_keep_alive_fresh by reflexivity.
  reflexivity.
Qed.

Lemma response_of_head (req : StringRequest) :
  request.method req = verb.head ->
  HandleRequest req =
  response.mk 200 (request.version req)
    ([(field.content_type, "text/html");
      (field.content_length,
       to_static_string (String.length (greeting (request.target req))))]
     ++ connection_field (request.version req) (request.keep_alive req))%list
    EmptyString.
Proof.
  intros Hm. run_handler. rewrite Hm. cbn [verb.eqb].
  rewrite set_keep_alive_fresh by reflexivity.
  reflexivity.
Qed.

Lemma response_of_other (req : StringRequest) :
  request.method req <> verb.get ->
  request.method req <> verb.head ->
  HandleRequest req =
  response.mk 405 (request.version req)
    ([(field.content_type, "text/html");
      (field.allow, "GET, HEAD");
      (field.content_length, "15")]
     ++ connection_field (request.version req) (request.keep_alive req))%list
    "Invalid method.".
Proof.
  intros Hg Hh. run_handler.
  rewrite (verb_eqb_neq _ _ Hg), (verb_eqb_neq _ _ Hh).
  rewrite set_keep_alive_fresh by reflexivity.
  reflexivity.
Qed.

(** Every request falls in exactly one of the three branches. *)
Lemma method_cases (req : StringRequest) :
  request.method req = verb.get \/
  request.method req = verb.head \/
  (request.method req <> verb.get /\ request.method req <> verb.head).
Proof.
  destruct (request.method req);
    solve [ now left | now right; left
          | right; right; split; discriminate ].
Qed.

(** In each branch the response is of the request's version and its
    fields end with the [Connection] field of the request's keep-alive. *)
Lemma response_connection_field (req : StringRequest) :
  exists s fs b,
    find field.connection fs = None /\
    HandleRequest req =
    response.mk s (request.version req)
      (fs ++ connection_field (request.version req)
                              (request.keep_alive req))%list b.
Proof.
  destruct (method_cases req) as [H | [H | [Hg Hh]]].
  - rewrite (response_of_get req H). do 3 eexists. split; [|reflexivity].
    reflexivity.
  - rewrite (response_of_head req H). do 3 eexists. split; [|reflexivity].
    reflexivity.
  - rewrite (response_of_other req Hg Hh). do 3 eexists.
    split; [|reflexivity]. reflexivity.
Qed.

Lemma request_keep_alive_negotiation (req : StringRequest) :
  request.keep_alive req =
  if request.version req <? 11 then declares req "keep-alive"
  else negb (declares req "close").
Proof.
  unfold request.keep_alive, get_keep_alive, declares, at_.
  destruct (find field.connection (request.base req));
    destruct (request.version req <? 11); reflexivity.
Qed.

Example response_to_get_abc :
  HandleRequest examples.get_abc =
  response.mk 200 11
    [("Content-Type", "text/html"); ("Content-Length", "10")]
    "Hello, abc".
Proof. reflexivity. Qed.

Example response_to_head_abc :
  HandleRequest examples.head_abc =
  response.mk 200 10
    [("Content-Type", "text/html"); ("Content-Length", "10");
     ("Connection", "keep-alive")]
    EmptyString.
Proof. reflexivity. Qed.

Example response_to_post_abc :
  HandleRequest examples.post_abc =
  response.mk 405 11
    [("Content-Type", "text/html"); ("Allow", "GET, HEAD");
     ("Content-Length", "15"); ("Connection", "close")]
    "Invalid method.".
Proof. reflexivity. Qed.

(** ** The claims *)

(** C1. For every GET request the response has status 200, its body is
    ["Hello, "] followed by the request target without one leading ['/'],
    and its [Content-Length] field is the decimal length of that body. *)
Theorem HandleRequest_get_hello (req : StringRequest) :
  request.method req = verb.get ->
  response.result (HandleRequest req) = 200 /\
  response.body (HandleRequest req) =
    "Hello, " ++ strip_target (request.target req) /\
  find field.content_length (response.base (HandleRequest req)) =
    Some (to_static_string
            (String.length (response.body (HandleRequest req)))).
Proof.
  intros Hm. rewrite (response_of_get req Hm). cbn.
  repeat split; reflexivity.
Qed.

Lemma HandleRequest_get_hello_witness :
  request.method examples.get_abc = verb.get /\
  response.result (HandleRequest examples.get_abc) = 200 /\
  response.body (HandleRequest examples.get_abc) = "Hello, abc" /\
  find field.content_length
       (response.base (HandleRequest examples.get_abc)) = Some "10".
Proof.
  split; [reflexivity|].
  exact (HandleRequest_get_hello examples.get_abc eq_refl).
Defined.

(** C2. For every HEAD request the response has status 200 and an empty
    body, and its [Content-Length] field is the one of the response to any
    GET request for the same target: the length of the greeting. *)
Theorem HandleRequest_head_length (req req_get : StringRequest) :
  request.method req = verb.head ->
  request.method req_get = verb.get ->
  request.target req_get = request.target req ->
  response.result (HandleRequest req) = 200 /\
  response.body (HandleRequest req) = EmptyString /\
  find field.content_length (response.base (HandleRequest req)) =
    find field.content_length (response.base (HandleRequest req_get)) /\
  find field.content_length (response.base (HandleRequest req)) =
    Some (to_static_string
            (String.length
               ("Hello, " ++ strip_target (request.target req)))).
Proof.
  intros Hh Hg Ht.
  rewrite (response_of_head req Hh), (response_of_get req_get Hg).
  unfold greeting. rewrite Ht. cbn.
  repeat split; reflexivity.
Qed.

Lemma HandleRequest_head_length_witness :
  request.method examples.head_abc = verb.head /\
  request.method examples.get_abc = verb.get /\
  request.target examples.get_abc = request.target examples.head_abc /\
  response.result (HandleRequest examples.head_abc) = 200 /\
  response.body (HandleRequest examples.head_abc) = EmptyString /\
  find field.content_length
       (response.base (HandleRequest examples.head_abc)) =
    find field.content_length
         (response.base (HandleRequest examples.get_abc)) /\
  find field.content_length
       (response.base (HandleRequest examples.head_abc)) = Some "10".
Proof.
  do 3 (split; [reflexivity|]).
  exact (HandleRequest_head_length examples.head_abc examples.get_abc
                                   eq_refl eq_refl eq_refl).
Defined.

(** C3. For every request whose method is neither GET nor HEAD the
    response has status 405, the field [Allow: GET, HEAD], the body
    ["Invalid method."] and the length of that body, 15, as its
    [Content-Length]. *)
Theorem HandleRequest_invalid_method (req : StringRequest) :
  request.method req <> verb.get ->
  request.method req <> verb.head ->
  response.result (HandleRequest req) = 405 /\
  find field.allow (response.base (HandleRequest req)) =
    Some "GET, HEAD" /\
  response.body (HandleRequest req) = "Invalid method." /\
  find field.content_length (response.base (HandleRequest req)) =
    Some (to_static_string
            (String.length (response.body (HandleRequest req)))).
Proof.
  intros Hg Hh. rewrite (response_of_other req Hg Hh). cbn.
  repeat split; reflexivity.
Qed.

Lemma HandleRequest_invalid_method_witness :
  request.method examples.post_abc <> verb.get /\
  request.method examples.post_abc <> verb.head /\
  response.result (HandleRequest examples.post_abc) = 405 /\
  find field.allow (response.base (HandleRequest examples.post_abc)) =
    Some "GET, HEAD" /\
  response.body (HandleRequest examples.post_abc) = "Invalid method." /\
  find field.content_length
       (response.base (HandleRequest examples.post_abc)) = Some "15".
Proof.
  split; [discriminate|]. split; [discriminate|].
  refine (HandleRequest_invalid_method examples.post_abc _ _); discriminate.
Defined.

(** C4. Whatever the method, the response's keep-alive is the request's,
    and the request's is the negotiation of HTTP: from version 1.1 on,
    on unless the request declares [close]; before, off unless it
    declares [keep-alive]. *)
Theorem HandleRequest_keep_alive_negotiated (req : StringRequest) :
  response.keep_alive (HandleRequest req) = request.keep_alive req /\
  request.keep_alive req =
    (if request.version req <? 11 then declares req "keep-alive"
     else negb (declares req "close")).
Proof.
  split; [|apply request_keep_alive_negotiation].
  destruct (response_connection_field req) as (s & fs & b & Hfs & ->).
  unfold response.keep_alive; cbn [response.version response.base].
  now apply get_keep_alive_fresh.
Qed.

(** C10. In all three branches the response carries
    [Content-Type: text/html]. *)
Theorem HandleRequest_content_type_html (req : StringRequest) :
  find field.content_type (response.base (HandleRequest req)) =
    Some ContentType.TEXT_HTML.
Proof.
  destruct (method_cases req) as [H | [H | [Hg Hh]]].
  - now rewrite (response_of_get req H).
  - now rewrite (response_of_head req H).
  - now rewrite (response_of_other req Hg Hh).
Qed.

End SyncServerFacts.

(* ================================================================== *)
(** * The session and the listener of the asynchronous server          *)
(* ================================================================== *)

Section AsyncServerFacts.
Import beast beast.http http_server.

Variable request_handler_ :
  HttpRequest -> (HttpResponse -> M SessionBase unit) -> M SessionBase unit.

(** [Read] leaves the socket and the buffer alone, empties the request
    holder, arms the timer and starts the read on the buffer. *)
Lemma Read_eq (s : SessionBase) :
  Read s =
  (tt, mkSessionBase (stream_ s) (buffer_ s) request.empty,
   [expires_after 30; async_read (buffer_ s)]).
Proof. reflexivity. Qed.

Lemma Close_eq (s : SessionBase) : Close s = (tt, s, [shutdown_send]).
Proof. reflexivity. Qed.

(** A read that completes without error hands the request to the
    handler. *)
Lemma OnRead_ok (ec : error_code) (n : nat) (s : SessionBase) :
  failed ec = false ->
  OnRead request_handler_ ec n s = request_handler_ (request_ s) Write s.
Proof.
  intros H. unfold OnRead.
  assert (E : error_code_eqb ec end_of_stream = false).
  { unfold failed in H. apply negb_false_iff in H.
    unfold error_code_eqb. apply Z.eqb_eq in H. rewrite H. reflexivity. }
  rewrite E, H. unfold bind, get_state, HandleRequest.
  destruct (request_handler_ (request_ s) _ s) as [[r s'] l].
  reflexivity.
Qed.

(** A successful accept starts the session and accepts again. *)
Lemma OnAccept_ok (ec : error_code) (socket : tcp_socket)
      (l : Listener) :
  failed ec = false ->
  OnAccept ec socket l =
  (tt, l, [on_session socket dispatch_read; async_accept]).
Proof. intros H. unfold OnAccept. rewrite H. reflexivity. Qed.

(** ** The claims *)

(** C5, as the code has it.  Whenever an accept completes with an error,
    whether the execution context is stopped or running, the listener
    reports the error once under the name ["accept"] and does nothing
    else: it does not accept again. *)
Theorem OnAccept_error_ends_loop (ec : error_code) (socket : tcp_socket)
        (l : Listener) :
  failed ec = true ->
  OnAccept ec socket l = (tt, l, [cerr "accept" ec]).
Proof. intros H. unfold OnAccept. rewrite H. reflexivity. Qed.

(** C6, as the code has it.  Whenever a read completes with an error
    other than end-of-stream, the session reports it once under the name
    ["read"] and does nothing else: no read, no write, and no shutdown of
    the send half. *)
Theorem OnRead_error_reports_only (ec : error_code) (n : nat)
        (s : SessionBase) :
  error_code_eqb ec end_of_stream = false ->
  failed ec = true ->
  OnRead request_handler_ ec n s = (tt, s, [cerr "read" ec]).
Proof. intros E H. unfold OnRead. rewrite E, H. reflexivity. Qed.

(** C7, as the code has it.  Whenever a write completes and either the
    response written has keep-alive off or the write reported an error,
    the session starts no further read.  Without an error it shuts the
    send half down, once; with an error it reports the error under the
    name ["write"] and shuts nothing down. *)
Theorem Write_handler_closing (safe_response : HttpResponse)
        (ec : error_code) (n : nat) (s : SessionBase) :
  response.keep_alive safe_response = false \/ failed ec = true ->
  Write_handler safe_response ec n s =
  (tt, s, if failed ec then [cerr "write" ec] else [shutdown_send]).
Proof.
  intros H. unfold Write_handler, OnWrite.
  destruct (failed ec) eqn:E; [reflexivity|].
  destruct H as [H | H]; [|discriminate H].
  now rewrite (need_eof_of_keep_alive_false _ H).
Qed.

(** C8, as the code has it.  Whenever a write completes without error and
    the response written has keep-alive on and delimits its length (by
    its status, [Content-Length] or chunking), the session empties the
    request holder, sets the 30 second timer and starts a read on the same
    buffer. *)
Theorem Write_handler_reads_again (safe_response : HttpResponse)
        (ec : error_code) (n : nat) (s : SessionBase) :
  failed ec = false ->
  response.keep_alive safe_response = true ->
  response.delimited safe_response = true ->
  Write_handler safe_response ec n s =
  (tt, mkSessionBase (stream_ s) (buffer_ s) request.empty,
   [expires_after 30; async_read (buffer_ s)]).
Proof.
  intros E K D. unfold Write_handler, OnWrite.
  assert (N : response.need_eof safe_response = false)
    by (apply need_eof_false_iff; now split).
  now rewrite E, N.
Qed.

(** C9. Whenever a read completes with end-of-stream the session goes
    straight to [Close], which shuts the send half down; nothing is
    reported and nothing else is started. *)
Theorem OnRead_end_of_stream_closes (n : nat) (s : SessionBase) :
  OnRead request_handler_ end_of_stream n s = (tt, s, [shutdown_send]) /\
  forall what ec,
    ~ In (cerr what ec)
         (actions_of (OnRead request_handler_ end_of_stream n s)).
Proof.
  split; [reflexivity|].
  intros what ec [H | []]. discriminate H.
Qed.

End AsyncServerFacts.

Section AsyncServerInstances.
Import beast beast.http http_server examples.

(** One request and its answer on a session: the read completes with
    [GET /abc], the handler's response is written, and once it is written
    the session reads again. *)
Example session_serves_get_abc :
  actions_of (OnRead sync_handler success 36 session7) =
    [async_write (sync_server.HandleRequest get_abc)] /\
  actions_of
    (Write_handler (sync_server.HandleRequest get_abc) success 90 session7) =
    [expires_after 30; async_read "GET /"].
Proof. split; reflexivity. Qed.

Lemma OnAccept_error_ends_loop_witness :
  failed connection_aborted = true /\
  OnAccept connection_aborted 7 running_listener =
  (tt, running_listener, [cerr "accept" connection_aborted]).
Proof.
  split; [reflexivity|].
  apply (OnAccept_error_ends_loop connection_aborted 7 running_listener).
  reflexivity.
Defined.

(** C5 fails as stated: on a running context, an aborted connection makes
    the listener report and stop; no accept follows. *)
Lemma OnAccept_aborted_no_next_accept :
  stopped (ioc_ running_listener) = false /\
  failed connection_aborted = true /\
  actions_of (OnAccept connection_aborted 7 running_listener) =
    [cerr "accept" connection_aborted] /\
  ~ In async_accept
       (actions_of (OnAccept connection_aborted 7 running_listener)).
Proof.
  repeat split. intros [H | []]. discriminate H.
Qed.

Lemma OnRead_error_reports_only_witness :
  error_code_eqb timeout end_of_stream = false /\
  failed timeout = true /\
  OnRead sync_handler timeout 0 session7 =
  (tt, session7, [cerr "read" timeout]).
Proof.
  split; [reflexivity|]. split; [reflexivity|].
  apply (OnRead_error_reports_only sync_handler timeout 0 session7);
    reflexivity.
Defined.

(** C6 fails as stated: after the idle timeout the session reports and
    returns without shutting the send half down. *)
Lemma OnRead_timeout_no_shutdown :
  error_code_eqb timeout end_of_stream = false /\
  failed timeout = true /\
  actions_of (OnRead sync_handler timeout 0 session7) =
    [cerr "read" timeout] /\
  ~ In shutdown_send
       (actions_of (OnRead sync_handler timeout 0 session7)).
Proof.
  repeat split. intros [H | []]. discriminate H.
Qed.

Lemma Write_handler_closing_witness :
  Write_handler (sync_server.HandleRequest post_abc) success 120 session7 =
  (tt, session7, [shutdown_send]) /\
  Write_handler (sync_server.HandleRequest get_abc) broken_pipe 0 session7 =
  (tt, session7, [cerr "write" broken_pipe]).
Proof.
  split.
  - apply (Write_handler_closing (sync_server.HandleRequest post_abc)
                               success 120 session7).
    left. reflexivity.
  - apply (Write_handler_closing (sync_server.HandleRequest get_abc)
                               broken_pipe 0 session7).
    right. reflexivity.
Defined.

(** C7 fails as stated: after a write error the session reports and
    returns without shutting the send half down. *)
Lemma Write_error_no_shutdown :
  failed broken_pipe = true /\
  actions_of (Write_handler (sync_server.HandleRequest get_abc)
                            broken_pipe 0 session7) =
    [cerr "write" broken_pipe] /\
  ~ In shutdown_send
       (actions_of (Write_handler (sync_server.HandleRequest get_abc)
                                  broken_pipe 0 session7)).
Proof.
  repeat split. intros [H | []]. discriminate H.
Qed.

Lemma Write_handler_reads_again_witness :
  Write_handler (sync_server.HandleRequest get_abc) success 90 session7 =
  (tt, mkSessionBase 7 "GET /" request.empty,
   [expires_after 30; async_read "GET /"]).
Proof.
  apply (Write_handler_reads_again (sync_server.HandleRequest get_abc)
                                  success 90 session7); reflexivity.
Defined.

(** C8 fails as stated: a response with keep-alive on that does not
    delimit its length is written without error, and the session closes
    instead of reading again. *)
Lemma Write_bare_ok_closes :
  failed success = false /\
  response.keep_alive bare_ok = true /\
  Write_handler bare_ok success 1 session7 =
  (tt, session7, [shutdown_send]).
Proof. repeat split. Qed.

End AsyncServerInstances.

(* ================================================================== *)
(** * More on the request handler                                      *)
(* ================================================================== *)

Section HandlerFacts.
Import beast beast.http sync_server spec.

(** A message whose fields are the given ones followed by the
    [Connection] field of [b] reads [b] back, and needs the connection
    closed exactly when [b] is off, provided it has a [Content-Length]. *)
Lemma need_eof_with_length (s : status) (v : nat) (fs : fields) (b : bool)
      (body : string) :
  find field.connection fs = None ->
  (0 <? count field.content_length fs) = true ->
  response.need_eof (response.mk s v (fs ++ connection_field v b)%list body)
  = negb b.
Proof.
  intros Hc Hl. unfold response.need_eof, response.delimited.
  unfold response.keep_alive, response.has_content_length.
  cbn [response.result response.version response.base].
  rewrite (get_keep_alive_fresh v b fs Hc).
  assert (E : (0 <? count field.content_length
                           (fs ++ connection_field v b)%list) = true).
  { unfold count in *. rewrite filter_app, length_app.
    apply Nat.ltb_lt. apply Nat.ltb_lt in Hl. apply Nat.lt_lt_add_r. exact Hl. }
  rewrite E. rewrite !orb_true_r. reflexivity.
Qed.

(** X1. Whatever its arguments, [MakeStringResponse] gives a response with
    the status, version and body it was given, the content type and the
    body's length in its fields, and the keep-alive it was asked for; the
    response needs the connection closed exactly when keep-alive is off. *)
Theorem MakeStringResponse_contract (s : status) (body : string) (v : nat)
        (keep_alive : bool) (content_type : string) :
  response.result (MakeStringResponse s body v keep_alive content_type) = s /\
  response.version (MakeStringResponse s body v keep_alive content_type) = v /\
  response.body (MakeStringResponse s body v keep_alive content_type) = body /\
  find field.content_type
       (response.base (MakeStringResponse s body v keep_alive content_type))
    = Some content_type /\
  find field.content_length
       (response.base (MakeStringResponse s body v keep_alive content_type))
    = Some (to_static_string (String.length body)) /\
  response.keep_alive (MakeStringResponse s body v keep_alive content_type)
    = keep_alive /\
  response.need_eof (MakeStringResponse s body v keep_alive content_type)
    = negb keep_alive.
Proof.
  assert (E : MakeStringResponse s body v keep_alive content_type =
              response.mk s v
                ([(field.content_type, content_type);
                  (field.content_length,
                   to_static_string (String.length body))]
                 ++ connection_field v keep_alive)%list body).
  { unfold MakeStringResponse.
    unfold response.set_keep_alive, response.content_length, response.set,
      response.set_body, response.with_base, response.make.
    cbn [response.result response.version response.base response.body].
    rewrite set_keep_alive_fresh by reflexivity. reflexivity. }
  rewrite E. repeat split; try reflexivity.
  - unfold response.keep_alive. cbn [response.version response.base].
    now apply get_keep_alive_fresh.
  - now apply need_eof_with_length.
Qed.

Lemma need_eof_of_answer (req : StringRequest) :
  response.need_eof (HandleRequest req) = negb (request.keep_alive req).
Proof.
  destruct (method_cases req) as [H | [H | [Hg Hh]]].
  - rewrite (response_of_get req H). now apply need_eof_with_length.
  - rewrite (response_of_head req H). now apply need_eof_with_length.
  - rewrite (response_of_other req Hg Hh). now apply need_eof_with_length.
Qed.

(** X2. Every response of [HandleRequest] has a [Content-Length], so it
    needs the connection closed exactly when the request's keep-alive is
    off: a connection stays open as long as its requests ask for it. *)
Theorem HandleRequest_need_eof (req : StringRequest) :
  response.need_eof (HandleRequest req) = negb (request.keep_alive req).
Proof.
  destruct (method_cases req) as [H | [H | [Hg Hh]]].
  - rewrite (response_of_get req H). now apply need_eof_with_length.
  - rewrite (response_of_head req H). now apply need_eof_with_length.
  - rewrite (response_of_other req Hg Hh). now apply need_eof_with_length.
Qed.

(** X3. The response to a HEAD request is the response to a GET request
    for the same target, version and keep-alive with the body taken out:
    status and all fields are the same. *)
Theorem HandleRequest_head_is_get_without_body
        (req_head req_get : StringRequest) :
  request.method req_head = verb.head ->
  request.method req_get = verb.get ->
  request.target req_head = request.target req_get ->
  request.version req_head = request.version req_get ->
  request.keep_alive req_head = request.keep_alive req_get ->
  HandleRequest req_head =
  response.set_body EmptyString (HandleRequest req_get).
Proof.
  intros Hh Hg Ht Hv Hk.
  rewrite (response_of_head req_head Hh), (response_of_get req_get Hg).
  rewrite Ht, Hv, Hk. reflexivity.
Qed.

Lemma HandleRequest_head_is_get_without_body_witness :
  HandleRequest scripts.head_abc11 =
  response.set_body EmptyString (HandleRequest examples.get_abc).
Proof.
  apply (HandleRequest_head_is_get_without_body
           scripts.head_abc11 examples.get_abc); reflexivity.
Defined.

(** X4. The response depends on the request's method, target, version and
    keep-alive only: the request's body and its other fields are never
    looked at. *)
Theorem HandleRequest_ignores_the_rest (r1 r2 : StringRequest) :
  request.method r1 = request.method r2 ->
  request.target r1 = request.target r2 ->
  request.version r1 = request.version r2 ->
  request.keep_alive r1 = request.keep_alive r2 ->
  HandleRequest r1 = HandleRequest r2.
Proof.
  intros Hm Ht Hv Hk. unfold HandleRequest. now rewrite Hm, Ht, Hv, Hk.
Qed.

Lemma HandleRequest_ignores_the_rest_witness :
  request.base scripts.get_abc_loaded <> request.base examples.get_abc /\
  request.body scripts.get_abc_loaded <> request.body examples.get_abc /\
  HandleRequest scripts.get_abc_loaded = HandleRequest examples.get_abc.
Proof.
  split; [discriminate|]. split; [discriminate|].
  apply (HandleRequest_ignores_the_rest
           scripts.get_abc_loaded examples.get_abc); reflexivity.
Defined.

(** X5. For a method other than GET and HEAD the response does not depend
    on the target either: all such requests of one version and keep-alive
    get the same 405 response. *)
Theorem invalid_method_response_uniform (r1 r2 : StringRequest) :
  request.method r1 <> verb.get -> request.method r1 <> verb.head ->
  request.method r2 <> verb.get -> request.method r2 <> verb.head ->
  request.version r1 = request.version r2 ->
  request.keep_alive r1 = request.keep_alive r2 ->
  HandleRequest r1 = HandleRequest r2.
Proof.
  intros G1 H1 G2 H2 Hv Hk.
  rewrite (response_of_other r1 G1 H1), (response_of_other r2 G2 H2).
  now rewrite Hv, Hk.
Qed.

Lemma invalid_method_response_uniform_witness :
  HandleRequest examples.post_abc =
  HandleRequest (request.mk verb.delete_ "/other/path" 11
                            [("Connection", "close")] EmptyString).
Proof.
  apply (invalid_method_response_uniform examples.post_abc);
    solve [discriminate | reflexivity].
Defined.

(** X6. Every response is of the request's version and carries exactly
    one [Content-Type] and one [Content-Length] field, no
    [Transfer-Encoding], and an [Allow] field exactly when the method is
    neither GET nor HEAD. *)
Theorem HandleRequest_fields (req : StringRequest) :
  response.version (HandleRequest req) = request.version req /\
  count field.content_type (response.base (HandleRequest req)) = 1 /\
  count field.content_length (response.base (HandleRequest req)) = 1 /\
  find field.transfer_encoding (response.base (HandleRequest req)) = None /\
  response.chunked (HandleRequest req) = false /\
  (find field.allow (response.base (HandleRequest req)) <> None <->
   request.method req <> verb.get /\ request.method req <> verb.head).
Proof.
  destruct (method_cases req) as [H | [H | [Hg Hh]]].
  - rewrite (response_of_get req H).
    unfold connection_field, response.chunked, get_chunked.
    destruct (request.version req <? 11), (request.keep_alive req); cbn;
      repeat split; try reflexivity; try congruence; tauto.
  - rewrite (response_of_head req H).
    unfold connection_field, response.chunked, get_chunked.
    destruct (request.version req <? 11), (request.keep_alive req); cbn;
      repeat split; try reflexivity; try congruence;
      try (intros [_ Hn]; congruence); tauto.
  - rewrite (response_of_other req Hg Hh).
    unfold connection_field, response.chunked, get_chunked.
    destruct (request.version req <? 11), (request.keep_alive req); cbn;
      repeat split; try reflexivity; try assumption; try discriminate.
Qed.

(** X7. [strip_target] takes off at most one character, and only a
    leading ['/']: a target that starts with ['/'] is that character
    followed by the result, any other target is returned as it is, so that
    the greeting is 7 characters longer than the stripped target. *)
Theorem strip_target_spec (target : string) :
  (target = String "/"%char (strip_target target) \/
   (strip_target target = target /\
    forall rest, target <> String "/"%char rest)) /\
  String.length (greeting target) = 7 + String.length (strip_target target).
Proof.
  split; [|reflexivity].
  destruct target as [|c rest]; [right; split; [reflexivity|discriminate]|].
  simpl. destruct (Ascii.eqb_spec c "/"%char) as [-> | Hne].
  - left. reflexivity.
  - right. split; [reflexivity|]. intros rest' E. injection E as E _.
    contradiction.
Qed.

End HandlerFacts.

(* ================================================================== *)
(** * One connection of the synchronous server                         *)
(* ================================================================== *)

Section ConnectionFacts.
Import beast beast.http sync_server sync_connection.

Variable message : error_code -> string.
Variable handle_request : StringRequest -> StringResponse.

(** A successful code is not end-of-stream. *)
Lemma not_failed_not_eof (ec : error_code) :
  failed ec = false -> error_code_eqb ec end_of_stream = false.
Proof.
  unfold failed, error_code_eqb. intros H.
  apply negb_false_iff, Z.eqb_eq in H. now rewrite H.
Qed.

Lemma eof_failed (ec : error_code) :
  error_code_eqb ec end_of_stream = true -> failed ec = true.
Proof.
  intros H. destruct (failed ec) eqn:E; [reflexivity|].
  apply not_failed_not_eof in E. congruence.
Qed.

Lemma goes_on_inv (t : turn) :
  goes_on handle_request t = true ->
  failed (read_ec t) = false /\ failed (write_ec t) = false /\
  response.need_eof (handle_request (read_req t)) = false.
Proof.
  unfold goes_on. intros H.
  apply andb_true_iff in H as [H H3]. apply andb_true_iff in H as [H1 H2].
  now rewrite negb_true_iff in H1, H2, H3.
Qed.

(** A turn that goes on is served and the loop takes the next one. *)
Lemma serve_loop_goes_on (t : turn) (rest : list turn) :
  goes_on handle_request t = true ->
  serve_loop message handle_request (t :: rest) =
  (fst (serve_loop message handle_request rest),
   (serves handle_request t
    ++ snd (serve_loop message handle_request rest))%list).
Proof.
  intros H. apply goes_on_inv in H as (H1 & H2 & H3).
  cbn [sync_connection.serve_loop]. unfold ReadRequest.
  rewrite (not_failed_not_eof _ H1), H1, H2, H3.
  now destruct (serve_loop message handle_request rest).
Qed.

Lemma serve_loop_prefix (pre rest : list turn) :
  forallb (goes_on handle_request) pre = true ->
  serve_loop message handle_request (pre ++ rest)%list =
  (fst (serve_loop message handle_request rest),
   (flat_map (serves handle_request) pre
    ++ snd (serve_loop message handle_request rest))%list).
Proof.
  induction pre as [|t pre IH]; intros H.
  - change ([] ++ rest)%list with rest.
    now destruct (serve_loop message handle_request rest).
  - cbn [forallb] in H. apply andb_true_iff in H as [Ht Hpre].
    rewrite <- app_comm_cons, (serve_loop_goes_on _ _ Ht), (IH Hpre).
    cbn [fst snd flat_map]. now rewrite app_assoc.
Qed.

(** The loop itself never shuts the socket down or writes to
    [std::cerr]. *)
Lemma serve_loop_quiet (script : list turn) :
  existsb is_shutdown (snd (serve_loop message handle_request script))
  = false /\
  existsb is_cerr (snd (serve_loop message handle_request script)) = false.
Proof.
  induction script as [|t rest [IH1 IH2]]; [now split|].
  cbn [sync_connection.serve_loop]. unfold ReadRequest.
  destruct (error_code_eqb (read_ec t) end_of_stream); [now split|].
  destruct (failed (read_ec t)); [now split|].
  destruct (failed (write_ec t)); [now split|].
  destruct (response.need_eof _); [now split|].
  destruct (serve_loop message handle_request rest) as [e l]. cbn in *.
  now split.
Qed.

(** X8. When [HandleConnection] returns, the last thing it did was to shut
    the send half of the socket down, and it did so once, however the loop
    was left; while it waits for a request it has not shut anything
    down. *)
Theorem HandleConnection_shuts_down_last (script : list turn) :
  match HandleConnection message handle_request script with
  | returns log =>
      exists l, log = (l ++ [shutdown_send])%list /\
                existsb is_shutdown l = false
  | blocks log => existsb is_shutdown log = false
  end.
Proof.
  unfold sync_connection.HandleConnection.
  destruct (serve_loop_quiet script) as [Q _].
  destruct (serve_loop message handle_request script) as [[| |e] l]; cbn in Q.
  - exact Q.
  - exists l. now split.
  - exists (l ++ [cerr_what e])%list. split.
    + now rewrite <- app_assoc.
    + rewrite existsb_app, Q. reflexivity.
Qed.

Lemma dumped_app (l1 l2 : list output) :
  requests_dumped (l1 ++ l2) = (requests_dumped l1 ++ requests_dumped l2)%list.
Proof. apply flat_map_app. Qed.

Lemma written_app (l1 l2 : list output) :
  responses_written (l1 ++ l2) =
  (responses_written l1 ++ responses_written l2)%list.
Proof. apply flat_map_app. Qed.

Lemma serve_loop_in_order (script : list turn) :
  responses_written (snd (serve_loop message handle_request script)) =
    map handle_request
        (requests_dumped (snd (serve_loop message handle_request script))) /\
  exists k,
    requests_dumped (snd (serve_loop message handle_request script)) =
    map read_req (firstn k script).
Proof.
  induction script as [|t rest [IH1 [k IH2]]].
  - split; [reflexivity|]. now exists 0.
  - cbn [sync_connection.serve_loop]. unfold ReadRequest.
    destruct (error_code_eqb (read_ec t) end_of_stream);
      [split; [reflexivity|now exists 0]|].
    destruct (failed (read_ec t)); [split; [reflexivity|now exists 0]|].
    destruct (failed (write_ec t)); [split; [reflexivity|now exists 1]|].
    destruct (response.need_eof _); [split; [reflexivity|now exists 1]|].
    destruct (serve_loop message handle_request rest) as [e l]. cbn in *.
    split; [now rewrite IH1|]. exists (S k). cbn. now rewrite IH2.
Qed.

(** X9. The responses written on a connection are the handler's answers
    to the requests dumped, one for each and in the same order, and the
    requests dumped are the first requests the socket delivered, in the
    order of their arrival. *)
Theorem HandleConnection_answers_in_order (script : list turn) :
  responses_written (log_of (HandleConnection message handle_request script)) =
    map handle_request
        (requests_dumped
           (log_of (HandleConnection message handle_request script)))
  /\
  exists k,
    requests_dumped (log_of (HandleConnection message handle_request script)) =
    map read_req (firstn k script).
Proof.
  unfold sync_connection.HandleConnection.
  destruct (serve_loop_in_order script) as [H1 [k H2]].
  destruct (serve_loop message handle_request script) as [[| |e] l];
    cbn [snd log_of] in *; rewrite ?dumped_app, ?written_app; cbn;
    rewrite ?app_nil_r; (split; [exact H1 | now exists k]).
Qed.

(** X10. As long as every read and write succeeds and no answer asks for
    the connection to be closed, every request is dumped and answered in
    turn, nothing is written to [std::cerr], and the handler does not
    return: it waits for the next request. *)
Theorem HandleConnection_waits (script : list turn) :
  forallb (goes_on handle_request) script = true ->
  HandleConnection message handle_request script =
  blocks (flat_map (serves handle_request) script).
Proof.
  intros H. unfold sync_connection.HandleConnection.
  rewrite <- (app_nil_r script) at 1.
  rewrite (serve_loop_prefix script [] H). cbn. now rewrite app_nil_r.
Qed.

(** X11. A read that fails ends the connection, and the turns after it are
    never looked at.  The request of the failed read is neither dumped nor
    answered.  End of stream is silent; any other error is written to
    [std::cerr] as ["Failed to read request: "] and its message.  Either
    way the send half is shut down. *)
Theorem HandleConnection_read_failure (pre : list turn) (t : turn)
        (rest : list turn) :
  forallb (goes_on handle_request) pre = true ->
  failed (read_ec t) = true ->
  HandleConnection message handle_request (pre ++ t :: rest)%list =
  returns
    (flat_map (serves handle_request) pre
     ++ (if error_code_eqb (read_ec t) end_of_stream then []
         else [cerr_what (runtime_error
                 ("Failed to read request: " ++ message (read_ec t)))])
     ++ [shutdown_send])%list.
Proof.
  intros Hpre Hf. unfold sync_connection.HandleConnection.
  rewrite (serve_loop_prefix pre (t :: rest) Hpre).
  cbn [sync_connection.serve_loop]. unfold ReadRequest. rewrite Hf.
  destruct (error_code_eqb (read_ec t) end_of_stream); cbn;
    rewrite ?app_nil_r; reflexivity.
Qed.

Lemma last_answer_log (pre : list turn) (t : turn) (rest : list turn) :
  forallb (goes_on handle_request) pre = true ->
  failed (read_ec t) = false ->
  failed (write_ec t) = true \/
  response.need_eof (handle_request (read_req t)) = true ->
  HandleConnection message handle_request (pre ++ t :: rest)%list =
  returns
    (flat_map (serves handle_request) (pre ++ [t])
     ++ (if failed (write_ec t) then [cerr_what (system_error (write_ec t))]
         else [])
     ++ [shutdown_send])%list.
Proof.
  intros Hpre Hr Hstop. unfold sync_connection.HandleConnection.
  rewrite (serve_loop_prefix pre (t :: rest) Hpre).
  cbn [sync_connection.serve_loop]. unfold ReadRequest.
  rewrite (not_failed_not_eof _ Hr), Hr.
  rewrite flat_map_app. cbn [flat_map]. rewrite app_nil_r.
  destruct (failed (write_ec t)) eqn:Hw; cbn.
  - now rewrite <- !app_assoc.
  - destruct Hstop as [Hstop | Hstop]; [discriminate|]. rewrite Hstop. cbn.
    now rewrite <- !app_assoc.
Qed.

(** X12. A request that is read is dumped and answered.  If the write of
    the answer fails, the error is written to [std::cerr]; if it succeeds
    and the answer needs the connection closed, nothing is.  Either way the
    loop ends there, the turns after it are never looked at, and the send
    half is shut down. *)
Theorem HandleConnection_last_answer (pre : list turn) (t : turn)
        (rest : list turn) :
  forallb (goes_on handle_request) pre = true ->
  failed (read_ec t) = false ->
  failed (write_ec t) = true \/
  response.need_eof (handle_request (read_req t)) = true ->
  HandleConnection message handle_request (pre ++ t :: rest)%list =
  returns
    (flat_map (serves handle_request) (pre ++ [t])
     ++ (if failed (write_ec t) then [cerr_what (system_error (write_ec t))]
         else [])
     ++ [shutdown_send])%list.
Proof.
  intros Hpre Hr Hstop. unfold sync_connection.HandleConnection.
  rewrite (serve_loop_prefix pre (t :: rest) Hpre).
  cbn [sync_connection.serve_loop]. unfold ReadRequest.
  rewrite (not_failed_not_eof _ Hr), Hr.
  rewrite flat_map_app. cbn [flat_map]. rewrite app_nil_r.
  destruct (failed (write_ec t)) eqn:Hw; cbn.
  - now rewrite <- !app_assoc.
  - destruct Hstop as [Hstop | Hstop]; [discriminate|]. rewrite Hstop. cbn.
    now rewrite <- !app_assoc.
Qed.

End ConnectionFacts.

Section SyncServerConnection.
Import beast beast.http sync_server sync_connection.

(** X13. The synchronous server, whose handler is [HandleRequest]: while
    reads and writes succeed, it answers every request up to and including
    the first whose keep-alive is off, then shuts the send half down and
    returns without a word on [std::cerr]; requests that follow on the
    same connection are not read. *)
Theorem sync_server_serves_until_close (message : error_code -> string)
        (pre : list turn) (t : turn) (rest : list turn) :
  forallb io_ok (pre ++ [t]) = true ->
  forallb (fun t => request.keep_alive (read_req t)) pre = true ->
  request.keep_alive (read_req t) = false ->
  HandleConnection message HandleRequest (pre ++ t :: rest)%list =
  returns (flat_map (serves HandleRequest) (pre ++ [t])
           ++ [shutdown_send])%list.
Proof.
  intros Hio Hka Hclose.
  rewrite forallb_app in Hio. apply andb_true_iff in Hio as [Hio Hiot].
  cbn in Hiot. rewrite andb_true_r in Hiot.
  unfold io_ok in Hiot. apply andb_true_iff in Hiot as [Hr Hw].
  rewrite negb_true_iff in Hr, Hw.
  assert (Hpre : forallb (goes_on HandleRequest) pre = true).
  { apply forallb_forall. intros x Hx.
    rewrite forallb_forall in Hio, Hka.
    unfold goes_on. fold (io_ok x). rewrite (Hio x Hx).
    rewrite need_eof_of_answer, (Hka x Hx). reflexivity. }
  rewrite (last_answer_log message HandleRequest pre t rest Hpre Hr).
  - now rewrite Hw.
  - right. rewrite need_eof_of_answer, Hclose. reflexivity.
Qed.

Import scripts.

Lemma HandleConnection_waits_witness :
  forallb (goes_on HandleRequest)
          [good examples.get_abc; good get_abc_loaded] = true /\
  HandleConnection message HandleRequest
                   [good examples.get_abc; good get_abc_loaded] =
  blocks [cout_request examples.get_abc;
          write (HandleRequest examples.get_abc);
          cout_request get_abc_loaded;
          write (HandleRequest get_abc_loaded)].
Proof.
  split; [reflexivity|].
  apply (HandleConnection_waits message HandleRequest
           [good examples.get_abc; good get_abc_loaded]).
  reflexivity.
Defined.

Lemma HandleConnection_read_failure_witness :
  HandleConnection message HandleRequest
    [good examples.get_abc; read_times_out; good examples.get_abc] =
  returns [cout_request examples.get_abc;
           write (HandleRequest examples.get_abc);
           cerr_what (runtime_error "Failed to read request: beast error");
           shutdown_send] /\
  HandleConnection message HandleRequest
    [good examples.get_abc; peer_closes; good examples.get_abc] =
  returns [cout_request examples.get_abc;
           write (HandleRequest examples.get_abc);
           shutdown_send].
Proof.
  split.
  - apply (HandleConnection_read_failure message HandleRequest
             [good examples.get_abc] read_times_out
             [good examples.get_abc]); reflexivity.
  - apply (HandleConnection_read_failure message HandleRequest
             [good examples.get_abc] peer_closes
             [good examples.get_abc]); reflexivity.
Defined.

Lemma HandleConnection_last_answer_witness :
  HandleConnection message HandleRequest
    [good examples.get_abc; write_breaks examples.get_abc;
     good examples.get_abc] =
  returns [cout_request examples.get_abc;
           write (HandleRequest examples.get_abc);
           cout_request examples.get_abc;
           write (HandleRequest examples.get_abc);
           cerr_what (system_error broken_pipe);
           shutdown_send].
Proof.
  apply (HandleConnection_last_answer message HandleRequest
           [good examples.get_abc] (write_breaks examples.get_abc)
           [good examples.get_abc]); [reflexivity | reflexivity |].
  left. reflexivity.
Defined.

Lemma sync_server_serves_until_close_witness :
  HandleConnection message HandleRequest
    [good examples.get_abc; good get_root_close; good examples.get_abc] =
  returns [cout_request examples.get_abc;
           write (HandleRequest examples.get_abc);
           cout_request get_root_close;
           write (HandleRequest get_root_close);
           shutdown_send].
Proof.
  apply (sync_server_serves_until_close message
           [good examples.get_abc] (good get_root_close)
           [good examples.get_abc]); reflexivity.
Defined.

End SyncServerConnection.

(* ================================================================== *)
(** * The life of a session                                            *)
(* ================================================================== *)

Section SessionRunFacts.
Import beast beast.http http_server session_run.

Variable f : HttpRequest -> HttpResponse.

Lemma pending_single {A} (l : list A) (i : nat) (op : A) :
  length l <= 1 -> nth_error l i = Some op -> l = [op] /\ i = 0.
Proof.
  destruct l as [|a [|b l]]; cbn; intros Hl Hn.
  - destruct i; discriminate.
  - destruct i as [|i]; cbn in Hn; [injection Hn as ->; now split|].
    destruct i; discriminate.
  - exfalso. apply (Nat.nle_succ_0 (length l)), le_S_n, Hl.
Qed.

(** A completion met by a session with one operation outstanding: the
    log grows by the reaction, whose asynchronous starts are the new
    outstanding operations. *)
Lemma step_answer (i : nat) (c : completion) (w w' : world) :
  length (pending w) <= 1 ->
  step (answer f) i c w = Some w' ->
  log w' = (log w ++ reaction f c w)%list /\
  pending w' = filter starts_io (reaction f c w) /\
  stream_ (session w') = stream_ (session w) /\
  length (pending w) = 1 /\
  match c with
  | dispatched => pending w = [dispatch_read]
  | read_done _ _ _ rest =>
      (exists b, pending w = [async_read b])
  | write_done _ _ => exists r, pending w = [async_write r]
  end.
Proof.
  intros Hl Hs. unfold step in Hs.
  destruct (nth_error (pending w) i) as [op|] eqn:Hn; [|discriminate].
  destruct (pending_single _ _ _ Hl Hn) as [Hp ->].
  unfold reaction. rewrite Hp in *.
  destruct op, c; try discriminate; injection Hs as <-.
  - (* async_read, read_done *)
    unfold after, OnRead, answer, HandleRequest, Write, Close, ReportError,
      bind, get_state, emit. rewrite Hp.
    destruct (error_code_eqb ec end_of_stream); cbn;
      [|destruct (failed ec); cbn]; repeat split; eauto.
  - (* async_write, write_done *)
    unfold after, Write_handler, OnWrite. rewrite Hp.
    destruct (failed ec); cbn; [repeat split; eauto|].
    destruct (response.need_eof response); cbn; repeat split; eauto.
  - (* dispatch_read, dispatched *)
    unfold after. rewrite Hp. cbn. repeat split; eauto.
Qed.

Lemma step_completes (i : nat) (c : completion) (w w' : world) :
  length (pending w) <= 1 ->
  step (answer f) i c w = Some w' ->
  exists op, pending w = [op] /\ completes op c.
Proof.
  intros Hl Hs. destruct (step_answer i c w w' Hl Hs) as (_ & _ & _ & _ & H).
  destruct c.
  - exists dispatch_read. now split.
  - destruct H as [b H]. exists (async_read b). now split.
  - destruct H as [r H]. exists (async_write r). now split.
Qed.

(** The reaction is one closing action, or one write, or the timer and a
    read. *)
Lemma reaction_kinds (c : completion) (w : world) (op : action) :
  pending w = [op] -> completes op c ->
  (exists a, reaction f c w = [a] /\ is_closing a = true) \/
  (exists r, reaction f c w = [async_write r]) \/
  reaction f c w = [expires_after 30; async_read (buffer_ (session w))].
Proof.
  intros Hp Hm. unfold reaction. rewrite Hp.
  destruct op, c; try contradiction.
  - destruct (error_code_eqb ec end_of_stream); [left; eauto|].
    destruct (failed ec); [left; eauto | right; left; eauto].
  - destruct (failed ec); [left; eauto|].
    destruct (response.need_eof response); [left; eauto | now right; right].
  - now right; right.
Qed.

Lemma closings_app (l1 l2 : list action) :
  length (filter is_closing (l1 ++ l2)) =
  length (filter is_closing l1) + length (filter is_closing l2).
Proof. now rewrite filter_app, length_app. Qed.

Lemma step_settled (i : nat) (c : completion) (w w' : world) :
  settled w -> step (answer f) i c w = Some w' -> settled w'.
Proof.
  intros [Hb _] Hs.
  assert (Hl : length (pending w) <= 1).
  { rewrite <- Hb. apply Nat.le_add_r. }
  destruct (step_answer i c w w' Hl Hs) as (Hlog & Hpend & _ & H1 & _).
  destruct (step_completes i c w w' Hl Hs) as (op & Hp & Hm).
  assert (H0 : length (filter is_closing (log w)) = 0).
  { rewrite H1 in Hb. now injection Hb. }
  unfold settled. rewrite Hlog, Hpend, closings_app, H0.
  destruct (reaction_kinds c w op Hp Hm) as [(a & -> & Ha) | [(r & ->) | ->]];
    cbn.
  - destruct a; try discriminate Ha; cbn;
      (split; [reflexivity|]); intros _; eexists _, _; now split.
  - split; [reflexivity|]. discriminate.
  - split; [reflexivity|]. discriminate.
Qed.

Lemma run_settled (cs : list (nat * completion)) (w w' : world) :
  settled w -> run (answer f) cs w = Some w' -> settled w'.
Proof.
  revert w. induction cs as [|[i c] cs IH]; intros w Hw Hr; cbn in Hr.
  - now injection Hr as <-.
  - destruct (step (answer f) i c w) as [w1|] eqn:Hs; [|discriminate].
    exact (IH w1 (step_settled i c w w1 Hw Hs) Hr).
Qed.

Lemma start_settled (socket : tcp_socket) : settled (start socket).
Proof. split; [reflexivity|discriminate]. Qed.

(** X14. A session whose handler answers at once never has two operations
    in flight, and it closes once: at any moment either exactly one
    operation is outstanding and the session has neither shut the send half
    down nor reported an error, or none is outstanding and the session has
    done exactly one of the two, as the last thing it did. *)
Theorem session_one_operation_one_closing (socket : tcp_socket)
        (cs : list (nat * completion)) (w : world) :
  run (answer f) cs (start socket) = Some w ->
  length (pending w) + length (filter is_closing (log w)) = 1 /\
  (pending w = [] ->
   exists l a, log w = (l ++ [a])%list /\ is_closing a = true).
Proof.
  intros Hr.
  assert (H0 : settled (start socket)) by (split; [reflexivity|discriminate]).
  exact (run_settled cs (start socket) w H0 Hr).
Qed.

Lemma written_of_reaction (c : completion) (w : world) (op : action) :
  pending w = [op] -> completes op c ->
  responses_written (reaction f c w) = map f (requests_read [(0, c)]).
Proof.
  intros Hp Hm. unfold reaction, requests_read. rewrite Hp.
  destruct op, c; try contradiction; cbn.
  - destruct (error_code_eqb ec end_of_stream) eqn:E.
    + now rewrite (eof_failed ec E).
    + now destruct (failed ec).
  - destruct (failed ec); [reflexivity|].
    now destruct (response.need_eof response).
  - reflexivity.
Qed.

Lemma requests_read_cons (i : nat) (c : completion)
      (cs : list (nat * completion)) :
  requests_read ((i, c) :: cs) =
  (requests_read [(0, c)] ++ requests_read cs)%list.
Proof.
  unfold requests_read. cbn [flat_map snd]. now rewrite app_nil_r.
Qed.

Lemma run_written (cs : list (nat * completion)) (w w' : world) :
  settled w -> run (answer f) cs w = Some w' ->
  responses_written (log w') =
  (responses_written (log w) ++ map f (requests_read cs))%list.
Proof.
  revert w. induction cs as [|[i c] cs IH]; intros w Hw Hr; cbn in Hr.
  - injection Hr as <-. cbn. now rewrite app_nil_r.
  - destruct (step (answer f) i c w) as [w1|] eqn:Hs; [|discriminate].
    rewrite (IH w1 (step_settled i c w w1 Hw Hs) Hr).
    assert (Hl : length (pending w) <= 1).
    { destruct Hw as [Hb _]. rewrite <- Hb. apply Nat.le_add_r. }
    destruct (step_answer i c w w1 Hl Hs) as (Hlog & _).
    destruct (step_completes i c w w1 Hl Hs) as (op & Hp & Hm).
    rewrite Hlog. unfold responses_written at 1. rewrite flat_map_app.
    fold (responses_written (log w)).
    fold (responses_written (reaction f c w)).
    rewrite (written_of_reaction c w op Hp Hm).
    now rewrite (requests_read_cons i c cs), map_app, app_assoc.
Qed.

(** X15. On a session whose handler answers at once with [f], the
    responses written are the answers to the requests read without error,
    one for each and in the order in which they were read. *)
Theorem session_answers_in_order (socket : tcp_socket)
        (cs : list (nat * completion)) (w : world) :
  run (answer f) cs (start socket) = Some w ->
  responses_written (log w) = map f (requests_read cs).
Proof.
  intros Hr.
  exact (run_written cs (start socket) w (start_settled socket) Hr).
Qed.

Lemma reads_armed_app (q : bool) (l1 l2 : list action) :
  reads_armed q l1 = true ->
  (forall q', reads_armed q' l2 = true) ->
  reads_armed q (l1 ++ l2) = true.
Proof.
  revert q. induction l1 as [|a l1 IH]; intros q H1 H2; [apply H2|].
  cbn in *. apply andb_true_iff in H1 as [Ha H1].
  rewrite Ha. cbn. now apply IH.
Qed.

Lemma run_reads_armed (cs : list (nat * completion)) (w w' : world) :
  settled w -> reads_armed false (log w) = true ->
  run (answer f) cs w = Some w' ->
  reads_armed false (log w') = true.
Proof.
  revert w. induction cs as [|[i c] cs IH]; intros w Hw Ha Hr; cbn in Hr.
  - now injection Hr as <-.
  - destruct (step (answer f) i c w) as [w1|] eqn:Hs; [|discriminate].
    apply (IH w1 (step_settled i c w w1 Hw Hs)); [|exact Hr].
    assert (Hl : length (pending w) <= 1).
    { destruct Hw as [Hb _]. rewrite <- Hb. apply Nat.le_add_r. }
    destruct (step_answer i c w w1 Hl Hs) as (Hlog & _).
    destruct (step_completes i c w w1 Hl Hs) as (op & Hp & Hm).
    rewrite Hlog. apply reads_armed_app; [exact Ha|].
    intros q.
    destruct (reaction_kinds c w op Hp Hm)
      as [(a & -> & Hc) | [(r & ->) | ->]]; [|reflexivity|reflexivity].
    destruct a; try discriminate Hc; reflexivity.
Qed.

(** X16. On a session whose handler answers at once, no read is ever
    started without its deadline: each [async_read] in the log comes right
    after the stream's timer was set to 30 seconds. *)
Theorem session_reads_have_deadline (socket : tcp_socket)
        (cs : list (nat * completion)) (w : world) :
  run (answer f) cs (start socket) = Some w ->
  reads_armed false (log w) = true.
Proof.
  intros Hr.
  exact (run_reads_armed cs (start socket) w (start_settled socket)
                         eq_refl Hr).
Qed.

Lemma request_cycle_run (w : world) (b : flat_buffer)
        (ec ec' : error_code) (n m : nat) (req : HttpRequest)
        (rest : flat_buffer) :
  pending w = [async_read b] ->
  failed ec = false ->
  failed ec' = false ->
  response.need_eof (f req) = false ->
  run (answer f) [(0, read_done ec n req rest); (0, write_done ec' m)] w =
  Some (mk_world
          (mkSessionBase (stream_ (session w)) rest request.empty)
          [async_read rest]
          (log w ++ [async_write (f req); expires_after 30;
                     async_read rest])%list).
Proof.
  intros Hp He He' Hn.
  cbn [run]. unfold step at 1. rewrite Hp. cbn [nth_error].
  unfold after at 1. unfold OnRead.
  rewrite (not_failed_not_eof ec He), He. rewrite Hp.
  cbn. unfold Write_handler, OnWrite. rewrite He', Hn. cbn.
  now rewrite <- app_assoc.
Qed.

(** X17. One request and its answer.  When a read completes without error
    and then the write of the answer does, and the answer does not need
    the connection closed, the session has written the answer to the
    request read and started the next read, with its deadline, on the
    bytes the first read left in the buffer; the request holder is empty
    again. *)
Theorem session_request_cycle (w : world) (b : flat_buffer)
        (ec ec' : error_code) (n m : nat) (req : HttpRequest)
        (rest : flat_buffer) :
  pending w = [async_read b] ->
  failed ec = false ->
  failed ec' = false ->
  response.need_eof (f req) = false ->
  run (answer f) [(0, read_done ec n req rest); (0, write_done ec' m)] w =
  Some (mk_world
          (mkSessionBase (stream_ (session w)) rest request.empty)
          [async_read rest]
          (log w ++ [async_write (f req); expires_after 30;
                     async_read rest])%list).
Proof.
  exact (request_cycle_run w b ec ec' n m req rest).
Qed.

End SessionRunFacts.

Section SessionRunInstances.
Import beast beast.http http_server session_run scripts.

Example two_requests_run :
  run (answer sync_server.HandleRequest) two_requests (start 7) =
  Some two_requests_end.
Proof. reflexivity. Qed.

Lemma session_one_operation_one_closing_witness :
  run (answer sync_server.HandleRequest) two_requests (start 7) =
    Some two_requests_end /\
  length (pending two_requests_end)
  + length (filter is_closing (log two_requests_end)) = 1 /\
  (pending two_requests_end = [] ->
   exists l a, log two_requests_end = (l ++ [a])%list /\
               is_closing a = true).
Proof.
  split; [reflexivity|].
  apply (session_one_operation_one_closing sync_server.HandleRequest 7
           two_requests two_requests_end).
  reflexivity.
Defined.

Lemma session_answers_in_order_witness :
  responses_written (log two_requests_end) =
  [sync_server.HandleRequest examples.get_abc;
   sync_server.HandleRequest get_root_close].
Proof.
  apply (session_answers_in_order sync_server.HandleRequest 7
           two_requests two_requests_end).
  reflexivity.
Defined.

Lemma session_reads_have_deadline_witness :
  reads_armed false (log two_requests_end) = true.
Proof.
  apply (session_reads_have_deadline sync_server.HandleRequest 7
           two_requests two_requests_end).
  reflexivity.
Defined.

Lemma session_request_cycle_witness :
  run (answer sync_server.HandleRequest)
      [(0, read_done success 36 examples.get_abc "GET / HT");
       (0, write_done success 90)]
      (mk_world (SessionBase_new 7) [async_read EmptyString] []) =
  Some (mk_world (mkSessionBase 7 "GET / HT" request.empty)
                 [async_read "GET / HT"]
                 [async_write (sync_server.HandleRequest examples.get_abc);
                  expires_after 30; async_read "GET / HT"]).
Proof.
  apply (session_request_cycle sync_server.HandleRequest
           (mk_world (SessionBase_new 7) [async_read EmptyString] [])
           EmptyString success success 36 90 examples.get_abc "GET / HT");
    reflexivity.
Defined.

End SessionRunInstances.

(* ================================================================== *)
(** * The two servers side by side                                     *)
(* ================================================================== *)

Section SideBySide.
Import beast beast.http http_server session_run.

Variable message : error_code -> string.
Variable f : request.t -> response.t.

Lemma run_app_session (h : HttpRequest ->
                           (HttpResponse -> M SessionBase unit) ->
                           M SessionBase unit)
      (cs1 cs2 : list (nat * completion)) (w w1 : world) :
  run h cs1 w = Some w1 -> run h (cs1 ++ cs2)%list w = run h cs2 w1.
Proof.
  revert w. induction cs1 as [|[i c] cs1 IH]; intros w H; cbn in *.
  - now injection H as ->.
  - destruct (step h i c w) as [w'|]; [now apply IH | discriminate].
Qed.

(** Turns that go on are as many request cycles of the session. *)
Lemma run_cycles (pre : list sync_connection.turn) (w : world)
      (b : flat_buffer) :
  forallb (sync_connection.goes_on f) pre = true ->
  pending w = [async_read b] ->
  exists w',
    run (answer f) (flat_map cycle pre) w = Some w' /\
    (exists b', pending w' = [async_read b']) /\
    stream_ (session w') = stream_ (session w).
Proof.
  revert w b. induction pre as [|t pre IH]; intros w b H Hp.
  - exists w. cbn. eauto.
  - cbn [forallb] in H. apply andb_true_iff in H as [Ht Hpre].
    apply (goes_on_inv f) in Ht as (H1 & H2 & H3).
    cbn [flat_map].
    pose proof (request_cycle_run f w b _ _ 0 0 _ EmptyString
                  Hp H1 H2 H3) as Hc.
    fold (cycle t) in Hc.
    rewrite (run_app_session _ _ _ _ _ Hc).
    match type of Hc with
    | _ = Some ?w1 =>
        destruct (IH w1 EmptyString Hpre eq_refl) as (w' & Hr & Hb & Hs)
    end.
    exists w'. repeat split; assumption.
Qed.

Lemma requests_read_cycles (script : list sync_connection.turn) :
  forallb (fun t => negb (failed (sync_connection.read_ec t))) script
  = true ->
  requests_read (flat_map cycle script) =
  map sync_connection.read_req script.
Proof.
  induction script as [|t script IH]; intros H; [reflexivity|].
  cbn [forallb] in H. apply andb_true_iff in H as [Ht Hs].
  rewrite negb_true_iff in Ht.
  cbn [flat_map map]. unfold requests_read in *.
  rewrite flat_map_app, (IH Hs). cbn. now rewrite Ht.
Qed.

Lemma written_serves (script : list sync_connection.turn) :
  sync_connection.responses_written
    (flat_map (sync_connection.serves f) script) =
  map f (map sync_connection.read_req script).
Proof.
  induction script as [|t script IH]; [reflexivity|].
  cbn [flat_map map]. rewrite written_app, IH. reflexivity.
Qed.

(** X20. The asynchronous session does what the synchronous connection
    does.  For a handler [f] and turns of the socket that go on until one
    whose answer, read and written without error, needs the connection
    closed, the session ends with no operation outstanding, its last
    action is the shutdown of the send half, and the responses it wrote
    are those [HandleConnection] writes, in the same order. *)
Theorem session_matches_connection (socket : tcp_socket)
        (pre : list sync_connection.turn) (t : sync_connection.turn) :
  forallb (sync_connection.goes_on f) pre = true ->
  sync_connection.io_ok t = true ->
  response.need_eof (f (sync_connection.read_req t)) = true ->
  exists w,
    run (answer f) (completions_of (pre ++ [t])) (start socket) = Some w /\
    pending w = [] /\
    (exists l, log w = (l ++ [shutdown_send])%list) /\
    responses_written (log w) =
    sync_connection.responses_written
      (sync_connection.log_of
         (sync_connection.HandleConnection message f (pre ++ [t]))).
Proof.
  intros Hpre Hio Hn.
  unfold sync_connection.io_ok in Hio.
  apply andb_true_iff in Hio as [Hr Hw]. rewrite negb_true_iff in Hr, Hw.
  (* the session *)
  unfold completions_of. rewrite flat_map_app. cbn [flat_map].
  rewrite app_nil_r.
  assert (H0 : run (answer f) [(0, dispatched)] (start socket) =
               Some (mk_world (SessionBase_new socket)
                              [async_read EmptyString]
                              [dispatch_read; expires_after 30;
                               async_read EmptyString])) by reflexivity.
  match type of H0 with
  | _ = Some ?w0 =>
      destruct (run_cycles pre w0 EmptyString Hpre eq_refl)
        as (w1 & Hrun & [b1 Hp1] & _)
  end.
  assert (Hlast : exists w,
             run (answer f) (cycle t) w1 = Some w /\ pending w = [] /\
             log w = (log w1 ++ [async_write (f (sync_connection.read_req t));
                                 shutdown_send])%list).
  { unfold cycle. cbn [run]. unfold step at 1. rewrite Hp1.
    cbn [nth_error]. unfold after at 1, OnRead.
    rewrite (not_failed_not_eof _ Hr), Hr, Hp1. cbn.
    unfold Write_handler, OnWrite. rewrite Hw, Hn. cbn.
    eexists. split; [reflexivity|]. split; [reflexivity|].
    cbn. now rewrite <- app_assoc. }
  destruct Hlast as (w & Hw1 & Hpw & Hlog).
  assert (Hall : run (answer f)
                     ((0, dispatched) :: flat_map cycle pre ++ cycle t)%list
                     (start socket) = Some w).
  { change ((0, dispatched) :: flat_map cycle pre ++ cycle t)%list
      with ([(0, dispatched)] ++ (flat_map cycle pre ++ cycle t))%list.
    rewrite (run_app_session _ _ _ _ _ H0).
    rewrite (run_app_session _ _ _ _ _ Hrun). exact Hw1. }
  exists w. split; [exact Hall|]. split; [exact Hpw|]. split.
  - exists (log w1 ++ [async_write (f (sync_connection.read_req t))])%list.
    rewrite Hlog. now rewrite <- app_assoc.
  - rewrite (run_written f _ _ _ (start_settled socket) Hall).
    rewrite (last_answer_log message f pre t [] Hpre Hr (or_intror Hn)).
    cbn [sync_connection.log_of]. rewrite Hw.
    (* both sides are the answers to the requests of the turns *)
    rewrite written_app, written_serves.
    change (responses_written (log (start socket))) with (@nil HttpResponse).
    change (sync_connection.responses_written
              ([] ++ [sync_connection.shutdown_send]))
      with (@nil response.t).
    rewrite app_nil_r. cbn [app].
    change (requests_read ((0, dispatched) :: flat_map cycle pre ++ cycle t))
      with (requests_read (flat_map cycle pre ++ cycle t)).
    replace (flat_map cycle pre ++ cycle t)%list
      with (flat_map cycle (pre ++ [t]))
      by (rewrite flat_map_app; cbn [flat_map]; now rewrite app_nil_r).
    rewrite requests_read_cycles; [reflexivity|].
    rewrite forallb_app. apply andb_true_iff. split.
    + apply forallb_forall. intros x Hx.
      rewrite forallb_forall in Hpre.
      destruct (goes_on_inv f x (Hpre x Hx)) as (Hx1 & _).
      now rewrite Hx1.
    + cbn. now rewrite Hr.
Qed.

End SideBySide.

Section SideBySideInstances.
Import beast beast.http http_server session_run scripts.

Lemma session_matches_connection_witness :
  exists w,
    run (answer sync_server.HandleRequest)
        (completions_of [good examples.get_abc; good get_root_close])
        (start 7) = Some w /\
    pending w = [] /\
    (exists l, log w = (l ++ [shutdown_send])%list) /\
    responses_written (log w) =
    sync_connection.responses_written
      (sync_connection.log_of
         (sync_connection.HandleConnection
            message sync_server.HandleRequest
            [good examples.get_abc; good get_root_close])).
Proof.
  apply (session_matches_connection message sync_server.HandleRequest 7
           [good examples.get_abc] (good get_root_close)); reflexivity.
Defined.

End SideBySideInstances.

(* ================================================================== *)
(** * The life of a listener                                           *)
(* ================================================================== *)

Section AcceptLoopFacts.
Import beast beast.http http_server accept_loop.

Lemma step_accepted (o : error_code * tcp_socket) (l : Listener)
      (acts : list action) :
  accepted o = true ->
  step o (mk_world l 1 acts) =
  Some (mk_world l 1 (acts ++ welcomes o)%list).
Proof.
  unfold accepted. rewrite negb_true_iff. intros H.
  unfold step, after. cbn [accepts listener log].
  rewrite (OnAccept_ok (fst o) (snd o) l H). reflexivity.
Qed.

Lemma run_accepted (os : list (error_code * tcp_socket)) (l : Listener)
      (acts : list action) :
  forallb accepted os = true ->
  run os (mk_world l 1 acts) =
  Some (mk_world l 1 (acts ++ flat_map welcomes os)%list).
Proof.
  revert acts. induction os as [|o os IH]; intros acts H.
  - cbn. now rewrite app_nil_r.
  - cbn [forallb] in H. apply andb_true_iff in H as [Ho Hos].
    cbn [run]. rewrite (step_accepted o l acts Ho), (IH _ Hos).
    cbn [flat_map]. now rewrite <- !app_assoc.
Qed.

Lemma run_app (os1 os2 : list (error_code * tcp_socket)) (w w1 : world) :
  run os1 w = Some w1 -> run (os1 ++ os2)%list w = run os2 w1.
Proof.
  revert w. induction os1 as [|o os1 IH]; intros w H; cbn in *.
  - now injection H as ->.
  - destruct (step o w) as [w'|]; [now apply IH | discriminate].
Qed.

(** X18. As long as accepts succeed the listener goes on: for each
    connection, in the order of arrival, it starts a session on the
    connection's socket and then the next accept, and exactly one accept is
    outstanding afterwards. *)
Theorem listener_accepts_in_order (os : list (error_code * tcp_socket))
        (l : Listener) :
  forallb accepted os = true ->
  run os (start l) =
  Some (mk_world l 1 (async_accept :: flat_map welcomes os)).
Proof.
  intros H. unfold start, after. cbn [listener accepts log].
  change (Listener_Run l) with (tt, l, [async_accept]).
  exact (run_accepted os l [async_accept] H).
Qed.

(** X19. The first accept that fails is the listener's last: after the
    sessions of the connections accepted before it, the log ends with the
    report of the error, no accept is outstanding, and so no further
    completion can reach the listener, whatever the state of the execution
    context. *)
Theorem listener_stops_at_first_error (os : list (error_code * tcp_socket))
        (ec : error_code) (socket : tcp_socket) (l : Listener) :
  forallb accepted os = true ->
  failed ec = true ->
  run (os ++ [(ec, socket)])%list (start l) =
    Some (mk_world l 0
            (async_accept :: flat_map welcomes os ++ [cerr "accept" ec])) /\
  forall o rest,
    run (os ++ (ec, socket) :: o :: rest)%list (start l) = None.
Proof.
  intros Hos Hf.
  pose proof (run_accepted os l [async_accept] Hos) as Hrun.
  assert (Hstep : step (ec, socket)
                       (mk_world l 1 ([async_accept] ++ flat_map welcomes os))
                  = Some (mk_world l 0
                            (async_accept :: flat_map welcomes os
                             ++ [cerr "accept" ec]))).
  { unfold step, after. cbn [accepts listener log fst snd].
    unfold OnAccept. rewrite Hf. reflexivity. }
  split.
  - unfold start at 1. rewrite (run_app os _ _ _ Hrun).
    cbn [run]. now rewrite Hstep.
  - intros o rest. rewrite (run_app os _ _ _ Hrun).
    cbn [run]. now rewrite Hstep.
Qed.

End AcceptLoopFacts.

Section AcceptLoopInstances.
Import beast beast.http http_server accept_loop scripts.

Lemma listener_accepts_in_order_witness :
  run three_accepts (start examples.running_listener) =
  Some (mk_world examples.running_listener 1
          [async_accept;
           on_session 7 dispatch_read; async_accept;
           on_session 8 dispatch_read; async_accept;
           on_session 9 dispatch_read; async_accept]).
Proof.
  apply (listener_accepts_in_order three_accepts examples.running_listener).
  reflexivity.
Defined.

Lemma listener_stops_at_first_error_witness :
  run (three_accepts ++ [(connection_aborted, 10)])%list
      (start examples.running_listener) =
    Some (mk_world examples.running_listener 0
            [async_accept;
             on_session 7 dispatch_read; async_accept;
             on_session 8 dispatch_read; async_accept;
             on_session 9 dispatch_read; async_accept;
             cerr "accept" connection_aborted]) /\
  forall o rest,
    run (three_accepts ++ (connection_aborted, 10) :: o :: rest)%list
        (start examples.running_listener) = None.
Proof.
  apply (listener_stops_at_first_error three_accepts connection_aborted 10
           examples.running_listener); reflexivity.
Defined.

End AcceptLoopInstances.
